(** * TEddyBear: voice-activity segmenter and realtime relay bridge

    A shallow embedding of the browser client (the frame callback
    [onaudioprocess], [concatenateFloat32Arrays], [float32To16BitPCM],
    [sendAudioToServer]) and of the backend (the [/process-audio] route and
    [processAudioWithOpenAI] of server.js, and of the earlier server.js next
    to it), followed by the properties the specification states about them.

    - [JsNum]: JavaScript Numbers as IEEE 754 binary64 values, that is
      [spec_float] with the operations of [SpecFloat] at precision 53 and
      maximal exponent 1024.
    - [Client]: the state of the page and its frame callback.  The clock
      ([Date.now()]) is an input of each call.
    - [Relay]: one relay session as a state machine.  The state holds the
      socket ([readyState], what was written to it), the variables of the
      closure and the promise; what the socket and the timer do to it is a
      list of occurrences, delivered one at a time to the handlers.
    - [Legacy]: the same for the earlier server.
    - [Page]: the rest of the page: how a round trip and a playback end,
      stop and start.
    - [Trace]: predicates on what happens to a relay session.
    - [Android]: the capture loop of MainActivity.kt. *)

From Stdlib Require Import ZArith String Ascii List Bool Lia.
From Stdlib Require Import Floats.SpecFloat.
From Stdlib Require Import DecimalString.
Import ListNotations.

Local Open Scope string_scope.
Local Open Scope list_scope.
Local Open Scope Z_scope.

(* ================================================================== *)
(** * JavaScript numbers                                                *)
(* ================================================================== *)

Module JsNum.

Definition prec : Z := 53.
Definition emax : Z := 1024.

(** A JavaScript Number. *)
Definition number : Type := spec_float.

Definition valid (x : number) : bool := valid_binary prec emax x.

Definition mul (x y : number) : number := SFmul prec emax x y.
Definition add (x y : number) : number := SFadd prec emax x y.
Definition div (x y : number) : number := SFdiv prec emax x y.
Definition sqrt (x : number) : number := SFsqrt prec emax x.

(** [x < y] and [x > y] of JavaScript: false as soon as one side is NaN. *)
Definition lt (x y : number) : bool := SFltb x y.
Definition gt (x y : number) : bool := SFltb y x.

Definition pzero : number := S754_zero false.
Definition one : number := S754_finite false 4503599627370496 (-52).
Definition minus_one : number := S754_finite true 4503599627370496 (-52).

(** The literals [0x8000] and [0x7FFF]. *)
Definition x8000 : number := S754_finite false 4503599627370496 (-37).
Definition x7FFF : number := S754_finite false 9006924376834048 (-38).

(** The literal [0.01]: the binary64 value nearest to one hundredth,
    [0x3F847AE147AE147B]. *)
Definition lit_0_01 : number := S754_finite false 5764607523034235 (-59).

(** An array length (a non-negative integer) read as a Number. *)
Definition of_nat (n : nat) : number :=
  binary_normalize prec emax (Z.of_nat n) 0 false.

Definition is_neg_zero (x : number) : bool :=
  match x with S754_zero true => true | _ => false end.

Definition is_pos_zero (x : number) : bool :=
  match x with S754_zero false => true | _ => false end.

(** [Math.min(a, b)]: NaN if either is NaN, and [-0] is below [+0]. *)
Definition Math_min (a b : number) : number :=
  match SFcompare a b with
  | None => S754_nan
  | Some Lt => a
  | Some Gt => b
  | Some Eq => if is_neg_zero a then a else b
  end.

(** [Math.max(a, b)]: NaN if either is NaN, and [+0] is above [-0]. *)
Definition Math_max (a b : number) : number :=
  match SFcompare a b with
  | None => S754_nan
  | Some Gt => a
  | Some Lt => b
  | Some Eq => if is_pos_zero a then a else b
  end.

(** The integer part of a Number, rounding toward zero; NaN, the
    infinities and the zeros give 0 (the first steps of ToInt16). *)
Definition truncate (x : number) : Z :=
  match x with
  | S754_finite s m e => cond_Zopp s (Z.shiftl (Zpos m) e)
  | _ => 0
  end.

(** Reduction modulo 2^16 into the signed range. *)
Definition wrap16 (z : Z) : Z :=
  let r := z mod 65536 in
  if r >=? 32768 then r - 65536 else r.

(** What a store into an [Int16Array] keeps of a Number (ToInt16). *)
Definition ToInt16 (x : number) : Z := wrap16 (truncate x).

(** ** Predicates of the range analysis *)

(** [mrs] is what [k] one-bit right shifts leave of [M]: the quotient,
    and round and sticky bits that are clear when nothing was lost. *)
Definition shr_inv (M k : Z) (mrs : shr_record) : Prop :=
  0 <= shr_m mrs /\
  exists rem, M = shr_m mrs * 2 ^ k + rem /\ 0 <= rem < 2 ^ k /\
              (rem = 0 -> shr_r mrs = false /\ shr_s mrs = false).

(** The mantissa [m] at exponent [e] stands for a magnitude of at most
    the integer [C]. *)
Definition mag_bound (C m e : Z) : Prop :=
  e <= 0 /\ 0 <= m <= C * 2 ^ (- e).

(** A Number of magnitude at most [C]: a zero, or a finite value within
    the bound. *)
Definition magnitude_le (C : Z) (x : number) : Prop :=
  match x with
  | S754_zero _ => True
  | S754_finite _ m e => mag_bound C (Zpos m) e
  | _ => False
  end.

Definition sign_of (x : number) : option bool :=
  match x with
  | S754_zero s | S754_infinity s | S754_finite s _ _ => Some s
  | S754_nan => None
  end.

End JsNum.

(* ================================================================== *)
(** * The browser client                                                *)
(* ================================================================== *)

Module Client.
Import JsNum.

(** A [Float32Array]: its elements read as Numbers. *)
Definition Float32Array : Type := list number.
(** An [Int16Array]. *)
Definition Int16Array : Type := list Z.

(** One iteration of the loop body of [float32To16BitPCM]. *)
Definition clamp (x : number) : number :=
  Math_max minus_one (Math_min one x).

Definition scale (s : number) : number :=
  if lt s pzero then mul s x8000 else mul s x7FFF.

Definition float32To16BitPCM (float32Array : Float32Array) : Int16Array :=
  map (fun x => ToInt16 (scale (clamp x))) float32Array.

(** ** Configuration *)

Definition SAMPLE_RATE : Z := 16000.
Definition SILENCE_THRESHOLD : number := lit_0_01.
Definition SPEECH_TIMEOUT_MS : Z := 1500.

(** ** State of the page *)

Record State := {
  recordingBuffer : list Float32Array;
  lastSpeechTime : Z;
  isListening : bool;
  isSpeaking : bool;
  statusText : string;
  (** the utterances [sendAudioToServer] has posted, oldest first *)
  posted : list Float32Array
}.

Definition updateStatus (st : State) (message : string) : State :=
  {| recordingBuffer := recordingBuffer st;
     lastSpeechTime := lastSpeechTime st;
     isListening := isListening st;
     isSpeaking := isSpeaking st;
     statusText := message;
     posted := posted st |}.

Definition set_recordingBuffer (st : State) (b : list Float32Array) : State :=
  {| recordingBuffer := b;
     lastSpeechTime := lastSpeechTime st;
     isListening := isListening st;
     isSpeaking := isSpeaking st;
     statusText := statusText st;
     posted := posted st |}.

Definition set_lastSpeechTime (st : State) (t : Z) : State :=
  {| recordingBuffer := recordingBuffer st;
     lastSpeechTime := t;
     isListening := isListening st;
     isSpeaking := isSpeaking st;
     statusText := statusText st;
     posted := posted st |}.

Definition set_isSpeaking (st : State) (b : bool) : State :=
  {| recordingBuffer := recordingBuffer st;
     lastSpeechTime := lastSpeechTime st;
     isListening := isListening st;
     isSpeaking := b;
     statusText := statusText st;
     posted := posted st |}.

Definition post (st : State) (utterance : Float32Array) : State :=
  {| recordingBuffer := recordingBuffer st;
     lastSpeechTime := lastSpeechTime st;
     isListening := isListening st;
     isSpeaking := isSpeaking st;
     statusText := statusText st;
     posted := posted st ++ [utterance] |}.

(** The page once [startListening] has succeeded. *)
Definition listening : State :=
  {| recordingBuffer := [];
     lastSpeechTime := 0;
     isListening := true;
     isSpeaking := false;
     statusText := "Ouvindo...";
     posted := [] |}.

(** ** concatenateFloat32Arrays *)

Definition totalLength (arrays : list Float32Array) : nat :=
  fold_left (fun total arr => (total + length arr)%nat) arrays 0%nat.

(** [result.set(arr, offset)], for a source that fits. *)
Definition set_at (result arr : Float32Array) (offset : nat) : Float32Array :=
  firstn offset result ++ arr ++ skipn (offset + length arr) result.

Definition concatenateFloat32Arrays (arrays : list Float32Array) : Float32Array :=
  fst (fold_left
         (fun '(result, offset) arr =>
            (set_at result arr offset, (offset + length arr)%nat))
         arrays
         (repeat pzero (totalLength arrays), 0%nat)).

(** ** The frame callback *)

Definition sum_squares (inputData : Float32Array) : number :=
  fold_left (fun sum x => add sum (mul x x)) inputData pzero.

Definition rms (inputData : Float32Array) : number :=
  sqrt (div (sum_squares inputData) (of_nat (length inputData))).

(** The test [rms > SILENCE_THRESHOLD]. *)
Definition above_threshold (inputData : Float32Array) : bool :=
  gt (rms inputData) SILENCE_THRESHOLD.

(** [sendAudioToServer] up to the point where the request is issued. *)
Definition sendAudioToServer (st : State) (float32AudioData : Float32Array) : State :=
  if isSpeaking st then st
  else post (set_isSpeaking (updateStatus st "Processando...") true)
            float32AudioData.

(** [scriptProcessor.onaudioprocess]; [currentTime] is what [Date.now()]
    returns during the call. *)
Definition onaudioprocess (st : State) (inputData : Float32Array)
                          (currentTime : Z) : State :=
  if isSpeaking st || negb (isListening st) then st
  else if above_threshold inputData then
    let st1 :=
      match recordingBuffer st with
      | [] => updateStatus st "Capturando fala..."
      | _ :: _ => st
      end in
    set_lastSpeechTime
      (set_recordingBuffer st1 (recordingBuffer st1 ++ [inputData]))
      currentTime
  else if (0 <? length (recordingBuffer st))%nat
          && (currentTime - lastSpeechTime st >? SPEECH_TIMEOUT_MS) then
    let completeAudio := concatenateFloat32Arrays (recordingBuffer st) in
    let st1 := set_recordingBuffer st [] in
    if (0 <? length completeAudio)%nat then sendAudioToServer st1 completeAudio
    else updateStatus st1 "Ouvindo..."
  else st.

(** A frame together with the clock reading of its callback. *)
Definition Frame : Type := Float32Array * Z.

Definition feed (st : State) (frames : list Frame) : State :=
  fold_left (fun s f => onaudioprocess s (fst f) (snd f)) frames st.

(** The clock reading of the last frame of a run, [t0] if there is none. *)
Definition last_time (frames : list Frame) (t0 : Z) : Z :=
  last (map snd frames) t0.

End Client.

(* ================================================================== *)
(** * The backend: src/server.js                                        *)
(* ================================================================== *)

Module Relay.

(** A Node [Buffer]: its bytes. *)
Definition Buffer : Type := list Z.

(** What the process takes from its environment and from Node. *)
Record Runtime := {
  OPENAI_VOICE : string;
  (** [Buffer.from(s, 'base64')] *)
  Buffer_from_base64 : string -> Buffer;
  (** [buf.toString('base64')] *)
  Buffer_toString_base64 : Buffer -> string
}.

(** ** Values *)

(** A string-valued property of a parsed JSON object, [None] when the
    property is absent. *)
Definition truthy (v : option string) : bool :=
  match v with
  | Some s => negb (s =? "")%string
  | None => false
  end.

(** [a || b] on such properties, and [a || 'literal']. *)
Definition or_else (a b : option string) : option string :=
  if truthy a then a else b.

Definition or_literal (a : option string) (literal : string) : string :=
  match a with
  | Some s => if truthy a then s else literal
  | None => literal
  end.

(** [chunks.join('')] *)
Definition join (chunks : list string) : string := String.concat "" chunks.

(** [hay] contains [needle]. *)
Definition contains (hay needle : string) : Prop :=
  exists before after, hay = String.append before (String.append needle after).

(** ** The promise returned by processAudioWithOpenAI *)

Inductive Promise :=
| Pending
| Resolved (value : string)
| Rejected (message : string).

(** [resolve] and [reject] settle a pending promise and do nothing to a
    settled one. *)
Definition resolve (p : Promise) (value : string) : Promise :=
  match p with Pending => Resolved value | _ => p end.

Definition reject (p : Promise) (message : string) : Promise :=
  match p with Pending => Rejected message | _ => p end.

Definition settled (p : Promise) : bool :=
  match p with Pending => false | _ => true end.

(** ** The socket *)

Inductive ReadyState := CONNECTING | OPEN | CLOSING | CLOSED.

Definition ReadyState_eqb (a b : ReadyState) : bool :=
  match a, b with
  | CONNECTING, CONNECTING | OPEN, OPEN | CLOSING, CLOSING | CLOSED, CLOSED => true
  | _, _ => false
  end.

(** The messages the relay writes to the socket. *)
Inductive ClientEvent :=
| session_update (voice instructions : string)
| conversation_item_create (audio : string)
| response_create (modalities : list string).

Definition client_event_type (m : ClientEvent) : string :=
  match m with
  | session_update _ _ => "session.update"
  | conversation_item_create _ => "conversation.item.create"
  | response_create _ => "response.create"
  end.

(** A parsed inbound message: the properties the handler reads. *)
Record ServerEvent := {
  type : string;
  delta : option string;
  message : option string;
  reason : option string
}.

Definition INSTRUCTIONS : string :=
  "Você é um ursinho de pelúcia mágico que fala com crianças. Use linguagem simples, amigável e apropriada para crianças. Seja gentil, curioso e educativo. Responda de forma concisa, com no máximo 1-2 frases curtas.".

(** ** One relay session: the socket and the variables of the closure *)

Record Session := {
  readyState : ReadyState;
  (** messages written by [ws.send] on the open socket, oldest first *)
  sent : list ClientEvent;
  (** close frames written by [ws.close(code, reason)], oldest first *)
  closeFrames : list (Z * string);
  responseAudioChunks : list string;
  isSessionConfigured : bool;
  hasReceivedData : bool;
  (** the timer [connectionTimeout] is armed *)
  connectionTimeout : bool;
  promise : Promise
}.

Definition set_readyState (s : Session) (r : ReadyState) : Session :=
  {| readyState := r; sent := sent s; closeFrames := closeFrames s;
     responseAudioChunks := responseAudioChunks s;
     isSessionConfigured := isSessionConfigured s;
     hasReceivedData := hasReceivedData s;
     connectionTimeout := connectionTimeout s; promise := promise s |}.

Definition set_promise (s : Session) (p : Promise) : Session :=
  {| readyState := readyState s; sent := sent s; closeFrames := closeFrames s;
     responseAudioChunks := responseAudioChunks s;
     isSessionConfigured := isSessionConfigured s;
     hasReceivedData := hasReceivedData s;
     connectionTimeout := connectionTimeout s; promise := p |}.

Definition set_isSessionConfigured (s : Session) (b : bool) : Session :=
  {| readyState := readyState s; sent := sent s; closeFrames := closeFrames s;
     responseAudioChunks := responseAudioChunks s;
     isSessionConfigured := b;
     hasReceivedData := hasReceivedData s;
     connectionTimeout := connectionTimeout s; promise := promise s |}.

Definition set_hasReceivedData (s : Session) (b : bool) : Session :=
  {| readyState := readyState s; sent := sent s; closeFrames := closeFrames s;
     responseAudioChunks := responseAudioChunks s;
     isSessionConfigured := isSessionConfigured s;
     hasReceivedData := b;
     connectionTimeout := connectionTimeout s; promise := promise s |}.

Definition push_chunk (s : Session) (chunk : string) : Session :=
  {| readyState := readyState s; sent := sent s; closeFrames := closeFrames s;
     responseAudioChunks := responseAudioChunks s ++ [chunk];
     isSessionConfigured := isSessionConfigured s;
     hasReceivedData := hasReceivedData s;
     connectionTimeout := connectionTimeout s; promise := promise s |}.

Definition clearTimeout (s : Session) : Session :=
  {| readyState := readyState s; sent := sent s; closeFrames := closeFrames s;
     responseAudioChunks := responseAudioChunks s;
     isSessionConfigured := isSessionConfigured s;
     hasReceivedData := hasReceivedData s;
     connectionTimeout := false; promise := promise s |}.

(** [ws.send(data)]: written when the socket is open, dropped otherwise. *)
Definition ws_send (s : Session) (m : ClientEvent) : Session :=
  match readyState s with
  | OPEN =>
      {| readyState := readyState s; sent := sent s ++ [m];
         closeFrames := closeFrames s;
         responseAudioChunks := responseAudioChunks s;
         isSessionConfigured := isSessionConfigured s;
         hasReceivedData := hasReceivedData s;
         connectionTimeout := connectionTimeout s; promise := promise s |}
  | _ => s
  end.

(** [ws.close(code, reason)]: an open socket writes a close frame and is
    closing; a connecting one aborts its handshake; otherwise nothing. *)
Definition ws_close (s : Session) (code : Z) (why : string) : Session :=
  match readyState s with
  | OPEN =>
      {| readyState := CLOSING; sent := sent s;
         closeFrames := closeFrames s ++ [(code, why)];
         responseAudioChunks := responseAudioChunks s;
         isSessionConfigured := isSessionConfigured s;
         hasReceivedData := hasReceivedData s;
         connectionTimeout := connectionTimeout s; promise := promise s |}
  | CONNECTING => set_readyState s CLOSING
  | _ => s
  end.

(** The session as [new WebSocket] and [setTimeout] leave it. *)
Definition connect : Session :=
  {| readyState := CONNECTING; sent := []; closeFrames := [];
     responseAudioChunks := []; isSessionConfigured := false;
     hasReceivedData := false; connectionTimeout := true;
     promise := Pending |}.

(** ** What happens to a session *)

Inductive Occurrence :=
| Opened
| Message (parsed : option ServerEvent)
| Errored (err : string)
| Closed (code : Z) (why : string)
(** 30000 ms have passed since [setTimeout] *)
| TimerElapsed.

(** ** The handlers of processAudioWithOpenAI *)

Section Handlers.
Variable rt : Runtime.
Variable audioBuffer : Buffer.

(** The callback given to [setTimeout]. *)
Definition on_timeout (s : Session) : Session :=
  if ReadyState_eqb (readyState s) CONNECTING
     || (ReadyState_eqb (readyState s) OPEN && negb (hasReceivedData s)) then
    let s1 := ws_close s 1000 "Connection timeout" in
    set_promise s1
      (reject (promise s1)
         "Timeout: OpenAI Realtime API connection or initial data timeout")
  else s.

Definition open (s : Session) : Session := clearTimeout s.

Definition configure (s : Session) : Session :=
  let s1 := set_isSessionConfigured s true in
  let s2 := ws_send s1 (session_update (OPENAI_VOICE rt) INSTRUCTIONS) in
  let base64InputAudio := Buffer_toString_base64 rt audioBuffer in
  let s3 := ws_send s2 (conversation_item_create base64InputAudio) in
  ws_send s3 (response_create ["audio"; "text"]).

(** The chain of tests on [event.type]. *)
Definition dispatch (s : Session) (event : ServerEvent) : Session :=
  if (type event =? "session.created")%string && negb (isSessionConfigured s) then
    configure s
  else if (type event =? "response.audio.delta")%string then
    match delta event with
    | Some d => if truthy (delta event) then push_chunk s d else s
    | None => s
    end
  else if (type event =? "response.text.delta")%string then s
  else if (type event =? "response.done")%string then
    let completeAudioBase64 := join (responseAudioChunks s) in
    let s1 :=
      if ReadyState_eqb (readyState s) OPEN
      then ws_close s 1000 "Processing complete" else s in
    set_promise s1 (resolve (promise s1) completeAudioBase64)
  else if (type event =? "error")%string || (type event =? "session.error")%string then
    let s1 :=
      if ReadyState_eqb (readyState s) OPEN
      then ws_close s 1011 "API Error" else s in
    set_promise s1
      (reject (promise s1)
         (String.append "OpenAI API Error: "
            (or_literal (or_else (message event) (reason event))
                        "Unknown API error")))
  else s.

(** The message handler; [None] is a message [JSON.parse] rejects, which
    the handler logs and drops. *)
Definition incoming (s : Session) (parsed : option ServerEvent) : Session :=
  let s1 := set_hasReceivedData s true in
  match parsed with
  | Some event => dispatch s1 event
  | None => s1
  end.

(** The error handler; [err] is [err.message]. *)
Definition error (s : Session) (err : string) : Session :=
  let s1 := clearTimeout s in
  set_promise s1 (reject (promise s1) err).

Definition close (s : Session) (code : Z) (why : string) : Session :=
  clearTimeout s.

(** One turn of the event loop.  The socket emits [open] only while
    connecting, [message] only while open or closing, and [close] once;
    the timer callback runs only while the timer is armed, and once. *)
Definition deliver (s : Session) (o : Occurrence) : Session :=
  match o with
  | Opened =>
      match readyState s with
      | CONNECTING => open (set_readyState s OPEN)
      | _ => s
      end
  | Message parsed =>
      match readyState s with
      | OPEN | CLOSING => incoming s parsed
      | _ => s
      end
  | Errored err => error s err
  | Closed code why =>
      match readyState s with
      | CLOSED => s
      | _ => close (set_readyState s CLOSED) code why
      end
  | TimerElapsed =>
      if connectionTimeout s then on_timeout (clearTimeout s) else s
  end.

Definition run (s : Session) (trace : list Occurrence) : Session :=
  fold_left deliver trace s.

End Handlers.

(** The session an exchange leaves behind when the socket and the timer
    behave as [trace] says; [sampleRate] is received and not used. *)
Definition processAudioWithOpenAI (rt : Runtime) (audioBuffer : Buffer)
    (sampleRate : Z) (trace : list Occurrence) : Session :=
  run rt audioBuffer connect trace.

(** ** The route POST /process-audio *)

Record RequestBody := {
  audio : option string;
  sampleRate : option Z
}.

Inductive ResponseBody :=
| audio_body (audio : string)
| error_body (error : string) (details : option string).

Record Response := {
  status : Z;
  body : ResponseBody
}.

(** What the promise makes of the request once it is settled. *)
Definition respond (p : Promise) : option Response :=
  match p with
  | Pending => None
  | Resolved responseAudioBase64 =>
      Some {| status := 200; body := audio_body responseAudioBase64 |}
  | Rejected msg =>
      Some {| status := 500;
              body := error_body "Erro interno ao processar áudio" (Some msg) |}
  end.

(** ** Reading a trace *)

(** The fragments that the [response.audio.delta] messages among [events]
    carry, in order of arrival. *)
Definition audio_deltas (events : list ServerEvent) : list string :=
  flat_map
    (fun e =>
       if (type e =? "response.audio.delta")%string
       then match delta e with Some d => [d] | None => [] end
       else [])
    events.

(** A message that ends the exchange. *)
Definition terminal (e : ServerEvent) : bool :=
  (type e =? "response.done")%string
  || (type e =? "error")%string
  || (type e =? "session.error")%string.

(** The socket can still hand a message to its handler. *)
Definition accepts_messages (s : Session) : bool :=
  match readyState s with
  | OPEN | CLOSING => true
  | _ => false
  end.

(** Neither a message nor a socket error. *)
Definition quiet (o : Occurrence) : bool :=
  match o with
  | Message _ | Errored _ => false
  | _ => true
  end.

Definition bad_request : Response :=
  {| status := 400; body := error_body "Dados de áudio não fornecidos" None |}.

(** The handler of the route: the response it sends, if it sends one, and
    the relay sessions it has opened. *)
Definition process_audio (rt : Runtime) (req : RequestBody)
    (upstream : list Occurrence) : option Response * list Session :=
  let sampleRate := match sampleRate req with Some r => r | None => 16000 end in
  match audio req with
  | Some a =>
      if negb (truthy (audio req)) then (Some bad_request, [])
      else
        let audioBuffer := Buffer_from_base64 rt a in
        let session := processAudioWithOpenAI rt audioBuffer sampleRate upstream in
        (respond (promise session), [session])
  | None => (Some bad_request, [])
  end.

End Relay.

(* ================================================================== *)
(** * The backend: the earlier server.js                                *)
(* ================================================================== *)

Module Legacy.
Import Relay.

(** [chunks.join('')] where a chunk may be [undefined], which joins as
    the empty string. *)
Definition join_undefined (chunks : list (option string)) : string :=
  String.concat "" (map (fun c => match c with Some d => d | None => "" end) chunks).

Record Session := {
  readyState : ReadyState;
  sent : list ClientEvent;
  (** calls of [ws.close()] that wrote a close frame *)
  closeFrames : nat;
  responseAudioChunks : list (option string);
  isSessionCreated : bool;
  (** the timer [timeout] is armed *)
  timeout : bool;
  promise : Promise
}.

Definition set_readyState (s : Session) (r : ReadyState) : Session :=
  {| readyState := r; sent := sent s; closeFrames := closeFrames s;
     responseAudioChunks := responseAudioChunks s;
     isSessionCreated := isSessionCreated s;
     timeout := timeout s; promise := promise s |}.

Definition set_promise (s : Session) (p : Promise) : Session :=
  {| readyState := readyState s; sent := sent s; closeFrames := closeFrames s;
     responseAudioChunks := responseAudioChunks s;
     isSessionCreated := isSessionCreated s;
     timeout := timeout s; promise := p |}.

Definition set_isSessionCreated (s : Session) (b : bool) : Session :=
  {| readyState := readyState s; sent := sent s; closeFrames := closeFrames s;
     responseAudioChunks := responseAudioChunks s;
     isSessionCreated := b;
     timeout := timeout s; promise := promise s |}.

Definition push_chunk (s : Session) (chunk : option string) : Session :=
  {| readyState := readyState s; sent := sent s; closeFrames := closeFrames s;
     responseAudioChunks := responseAudioChunks s ++ [chunk];
     isSessionCreated := isSessionCreated s;
     timeout := timeout s; promise := promise s |}.

Definition clearTimeout (s : Session) : Session :=
  {| readyState := readyState s; sent := sent s; closeFrames := closeFrames s;
     responseAudioChunks := responseAudioChunks s;
     isSessionCreated := isSessionCreated s;
     timeout := false; promise := promise s |}.

Definition ws_send (s : Session) (m : ClientEvent) : Session :=
  match readyState s with
  | OPEN =>
      {| readyState := readyState s; sent := sent s ++ [m];
         closeFrames := closeFrames s;
         responseAudioChunks := responseAudioChunks s;
         isSessionCreated := isSessionCreated s;
         timeout := timeout s; promise := promise s |}
  | _ => s
  end.

Definition ws_close (s : Session) : Session :=
  match readyState s with
  | OPEN =>
      {| readyState := CLOSING; sent := sent s;
         closeFrames := S (closeFrames s);
         responseAudioChunks := responseAudioChunks s;
         isSessionCreated := isSessionCreated s;
         timeout := timeout s; promise := promise s |}
  | CONNECTING => set_readyState s CLOSING
  | _ => s
  end.

Definition connect : Session :=
  {| readyState := CONNECTING; sent := []; closeFrames := 0%nat;
     responseAudioChunks := []; isSessionCreated := false;
     timeout := true; promise := Pending |}.

Section Handlers.
Variable rt : Runtime.
Variable audioBuffer : Buffer.
(** The message of the error [JSON.parse] throws. *)
Variable parseError : string.

Definition on_timeout (s : Session) : Session :=
  if ReadyState_eqb (readyState s) OPEN then
    let s1 := ws_close s in
    set_promise s1 (reject (promise s1) "Timeout na conexão com OpenAI")
  else s.

Definition configure (s : Session) : Session :=
  let s1 := set_isSessionCreated s true in
  let s2 := ws_send s1 (session_update "alloy" INSTRUCTIONS) in
  let base64Audio := Buffer_toString_base64 rt audioBuffer in
  let s3 := ws_send s2 (conversation_item_create base64Audio) in
  ws_send s3 (response_create ["audio"; "text"]).

(** The three tests on [event.type], one after the other. *)
Definition dispatch (s : Session) (event : ServerEvent) : Session :=
  let s1 :=
    if (type event =? "session.created")%string && negb (isSessionCreated s)
    then configure s else s in
  let s2 :=
    if (type event =? "response.audio.delta")%string
    then push_chunk s1 (delta event) else s1 in
  if (type event =? "response.done")%string then
    let completeAudioBase64 := join_undefined (responseAudioChunks s2) in
    let s3 := ws_close s2 in
    set_promise s3 (resolve (promise s3) completeAudioBase64)
  else s2.

Definition incoming (s : Session) (parsed : option ServerEvent) : Session :=
  match parsed with
  | Some event => dispatch s event
  | None => set_promise s (reject (promise s) parseError)
  end.

Definition error (s : Session) (err : string) : Session :=
  set_promise s (reject (promise s) err).

Definition close (s : Session) : Session := clearTimeout s.

Definition deliver (s : Session) (o : Occurrence) : Session :=
  match o with
  | Opened =>
      match readyState s with
      | CONNECTING => set_readyState s OPEN
      | _ => s
      end
  | Message parsed =>
      match readyState s with
      | OPEN | CLOSING => incoming s parsed
      | _ => s
      end
  | Errored err => error s err
  | Closed _ _ =>
      match readyState s with
      | CLOSED => s
      | _ => close (set_readyState s CLOSED)
      end
  | TimerElapsed =>
      if timeout s then on_timeout (clearTimeout s) else s
  end.

Definition run (s : Session) (trace : list Occurrence) : Session :=
  fold_left deliver trace s.

End Handlers.

Definition processAudioWithOpenAI (rt : Runtime) (parseError : string)
    (audioBuffer : Buffer) (sampleRate : Z) (trace : list Occurrence) : Session :=
  run rt audioBuffer parseError connect trace.

Definition respond (p : Promise) : option Response :=
  match p with
  | Pending => None
  | Resolved responseAudio =>
      Some {| status := 200; body := audio_body responseAudio |}
  | Rejected msg =>
      Some {| status := 500;
              body := error_body "Erro ao processar áudio" (Some msg) |}
  end.

Definition process_audio (rt : Runtime) (parseError : string) (req : RequestBody)
    (upstream : list Occurrence) : option Response * list Session :=
  let sampleRate := match sampleRate req with Some r => r | None => 16000 end in
  match audio req with
  | Some a =>
      if negb (truthy (audio req)) then (Some bad_request, [])
      else
        let audioBuffer := Buffer_from_base64 rt a in
        let session :=
          processAudioWithOpenAI rt parseError audioBuffer sampleRate upstream in
        (respond (promise session), [session])
  | None => (Some bad_request, [])
  end.

End Legacy.

(* ================================================================== *)
(** * Sample inputs                                                     *)
(* ================================================================== *)

Module Samples.
Import Relay.

(** A runtime for the scenarios.  Its codec is a stand-in that keeps each
    character as one byte; the properties below hold for every codec. *)
Definition codes (s : string) : Buffer :=
  map (fun c => Z.of_nat (nat_of_ascii c)) (list_ascii_of_string s).

Definition chars (b : Buffer) : string :=
  string_of_list_ascii (map (fun z => ascii_of_nat (Z.to_nat z)) b).

Definition rt : Runtime :=
  {| OPENAI_VOICE := "alloy";
     Buffer_from_base64 := codes;
     Buffer_toString_base64 := chars |}.

Definition event (t : string) : ServerEvent :=
  {| type := t; delta := None; message := None; reason := None |}.

Definition session_created : ServerEvent := event "session.created".
Definition response_done : ServerEvent := event "response.done".

Definition audio_delta (d : string) : ServerEvent :=
  {| type := "response.audio.delta"; delta := Some d;
     message := None; reason := None |}.

Definition error_event (m : string) : ServerEvent :=
  {| type := "error"; delta := None; message := Some m; reason := None |}.

Definition request (a : string) : RequestBody :=
  {| audio := Some a; sampleRate := Some 16000 |}.

(** The samples 1.5, -Infinity, NaN, -0.5, 0.5 and -0. *)
Definition samples : Client.Float32Array :=
  [S754_finite false 6755399441055744 (-52); S754_infinity true; S754_nan;
   S754_finite true 4503599627370496 (-53);
   S754_finite false 4503599627370496 (-53); S754_zero true].

(** A loud frame (the sample 1) and a silent one (the sample 0). *)
Definition loud_frame : Client.Float32Array := [JsNum.one].
Definition silent_frame : Client.Float32Array := [JsNum.pzero].

End Samples.

(* ================================================================== *)
(** * The browser client: the round trip, playback, start and stop      *)
(* ================================================================== *)

Module Page.
Import JsNum Client.

(** What the page holds besides the variables of the segmenter. *)
Record State := {
  seg : Client.State;
  (** [mediaStream] is set *)
  mediaStream : bool;
  (** calls of [startListening] that wait for the microphone *)
  starting : nat;
  (** the responses handed to [playAudioResponse], oldest first *)
  played : list string
}.

Definition with_seg (p : State) (s : Client.State) : State :=
  {| seg := s; mediaStream := mediaStream p; starting := starting p;
     played := played p |}.

Definition set_isListening (st : Client.State) (b : bool) : Client.State :=
  {| recordingBuffer := recordingBuffer st;
     lastSpeechTime := lastSpeechTime st;
     isListening := b;
     isSpeaking := isSpeaking st;
     statusText := statusText st;
     posted := posted st |}.

(** ** Values read from a response *)

(** A string-valued property of a parsed body, [None] when it is absent. *)
Definition truthy (v : option string) : bool :=
  match v with
  | Some s => negb (s =? "")%string
  | None => false
  end.

(** [a || b] *)
Definition or_else (a b : option string) : option string :=
  if truthy a then a else b.

(** A property inside a template literal. *)
Definition interpolate (v : option string) : string :=
  match v with
  | Some s => s
  | None => "undefined"
  end.

(** An integer inside a template literal. *)
Definition Number_toString (n : Z) : string :=
  NilZero.string_of_int (Z.to_int n).

(** What [response.json()] gives: an object, of which the page reads
    [audio], [error] and [details], or a rejection. *)
Inductive Body :=
| JsonBody (audio error details : option string)
| NotJson (syntaxError : string).

(** How the [fetch] of [sendAudioToServer] ends. *)
Inductive FetchOutcome :=
| FetchRejected (message : string)
| FetchResponse (ok : bool) (status : Z) (body : Body).

(** ** sendAudioToServer after the request *)

(** The [catch] clause. *)
Definition communicationError (st : Client.State) (message : string) : Client.State :=
  let st1 := updateStatus st (String.append "Erro de comunicação: " message) in
  let st2 := set_isSpeaking st1 false in
  if isListening st2 then updateStatus st2 "Ouvindo..." else st2.

(** The message of the error thrown inside the [try], if one is. *)
Definition thrown (outcome : FetchOutcome) : option string :=
  match outcome with
  | FetchRejected message => Some message
  | FetchResponse false status body =>
      let '(error, details) :=
        match body with
        | JsonBody _ error details => (error, details)
        | NotJson _ => (Some "Erro desconhecido do servidor", None)
        end in
      Some (String.append "Server error: "
              (String.append (Number_toString status)
                 (String.append " - " (interpolate (or_else error details)))))
  | FetchResponse true _ (NotJson syntaxError) => Some syntaxError
  | FetchResponse true _ (JsonBody audio _ _) =>
      if truthy audio then None
      else Some "Resposta do servidor não contém áudio."
  end.

(** [playAudioResponse] up to its first [await]. *)
Definition playAudioResponse (p : State) (base64Audio : string) : State :=
  {| seg := updateStatus (seg p) "Falando...";
     mediaStream := mediaStream p;
     starting := starting p;
     played := played p ++ [base64Audio] |}.

(** The rest of [sendAudioToServer], run when [fetch] has ended. *)
Definition fetchSettled (p : State) (outcome : FetchOutcome) : State :=
  match thrown outcome with
  | Some message => with_seg p (communicationError (seg p) message)
  | None =>
      match outcome with
      | FetchResponse _ _ (JsonBody (Some audio) _ _) => playAudioResponse p audio
      | _ => p
      end
  end.

(** ** How a playback ends *)

Definition backToListening (st : Client.State) : Client.State :=
  let st1 := set_isSpeaking st false in
  if isListening st1 then updateStatus st1 "Ouvindo..." else st1.

(** [audio.onended] *)
Definition onended (p : State) : State :=
  with_seg p (backToListening (seg p)).

(** [audio.onerror] *)
Definition onerror (p : State) : State :=
  with_seg p (backToListening (updateStatus (seg p) "Erro ao tocar resposta.")).

(** The [catch] clause of [playAudioResponse]. *)
Definition playbackRejected (p : State) (message : string) : State :=
  with_seg p
    (backToListening
       (updateStatus (seg p) (String.append "Erro na reprodução: " message))).

(** ** stopListening and startListening *)

Definition stopListening (p : State) : State :=
  if negb (isListening (seg p)) && negb (mediaStream p) then p
  else
    {| seg := updateStatus
                (set_recordingBuffer (set_isListening (seg p) false) [])
                "Parado. Clique em Iniciar.";
       mediaStream := false;
       starting := starting p;
       played := played p |}.

(** [startListening] up to its first [await]. *)
Definition startListening (p : State) : State :=
  if isListening (seg p) then p
  else
    {| seg := updateStatus (seg p) "Iniciando microfone...";
       mediaStream := mediaStream p;
       starting := S (starting p);
       played := played p |}.

(** [startListening] once [getUserMedia] has given the stream, up to the
    [await] inside [requestWakeLock]. *)
Definition microphoneGranted (p : State) (wakeLockSupported : bool) : State :=
  let st := updateStatus (set_isListening (seg p) true) "Ouvindo..." in
  {| seg := if wakeLockSupported then st
            else updateStatus st "API de bloqueio de tela não suportada.";
     mediaStream := true;
     starting := pred (starting p);
     played := played p |}.

(** The [catch] clause of [startListening], when the microphone is
    refused. *)
Definition microphoneDenied (p : State) (message : string) : State :=
  stopListening
    {| seg := updateStatus (seg p)
                (String.append "Erro ao iniciar microfone: " message);
       mediaStream := mediaStream p;
       starting := pred (starting p);
       played := played p |}.

(** ** Everything that happens to the page *)

Inductive Event :=
| AudioProcess (inputData : Float32Array) (currentTime : Z)
| FetchSettled (outcome : FetchOutcome)
| Ended
| PlaybackError
| PlaybackRejected (message : string)
| StopClicked
| StartClicked
| MicrophoneGranted (wakeLockSupported : bool)
| MicrophoneDenied (message : string)
| WakeLockDenied
| WakeLockReleased.

(** One turn of the event loop.  The microphone answers only a call of
    [startListening] that waits for it. *)
Definition handle (p : State) (e : Event) : State :=
  match e with
  | AudioProcess inputData currentTime =>
      with_seg p (onaudioprocess (seg p) inputData currentTime)
  | FetchSettled outcome => fetchSettled p outcome
  | Ended => onended p
  | PlaybackError => onerror p
  | PlaybackRejected message => playbackRejected p message
  | StopClicked => stopListening p
  | StartClicked => startListening p
  | MicrophoneGranted wakeLockSupported =>
      match starting p with
      | O => p
      | S _ => microphoneGranted p wakeLockSupported
      end
  | MicrophoneDenied message =>
      match starting p with
      | O => p
      | S _ => microphoneDenied p message
      end
  | WakeLockDenied =>
      with_seg p (updateStatus (seg p) "Não foi possível ativar o bloqueio de tela.")
  | WakeLockReleased =>
      with_seg p
        (updateStatus (seg p) "Bloqueio de tela liberado. A tela pode desligar.")
  end.

Definition handle_all (p : State) (events : list Event) : State :=
  fold_left handle events p.

(** The page as it is loaded. *)
Definition loaded : State :=
  {| seg := {| recordingBuffer := []; lastSpeechTime := 0;
               isListening := false; isSpeaking := false;
               statusText := ""; posted := [] |};
     mediaStream := false;
     starting := 0%nat;
     played := [] |}.

(** An event that ends a round trip: the request fails, or the playback
    of its response ends. *)
Definition ends_round_trip (e : Event) : bool :=
  match e with
  | FetchSettled _ | Ended | PlaybackError | PlaybackRejected _ => true
  | _ => false
  end.

(** The reply the page sees for a response of the backend. *)
Definition reply_of (r : Relay.Response) : FetchOutcome :=
  FetchResponse
    ((200 <=? Relay.status r) && (Relay.status r <=? 299))
    (Relay.status r)
    (match Relay.body r with
     | Relay.audio_body a => JsonBody (Some a) None None
     | Relay.error_body e d => JsonBody None (Some e) d
     end).

End Page.

(* ================================================================== *)
(** * Reading traces of a relay session                                 *)
(* ================================================================== *)

Module Trace.
Import Relay.

(** The values of [event.type] that some branch of the handler acts on. *)
Definition handled_type (t : string) : bool :=
  (t =? "session.created")%string
  || (t =? "response.audio.delta")%string
  || (t =? "response.done")%string
  || (t =? "error")%string
  || (t =? "session.error")%string.

(** A message no branch acts on: one that does not parse, a
    [response.text.delta], a message of any other type. *)
Definition ignorable (o : Occurrence) : bool :=
  match o with
  | Message None => true
  | Message (Some event) => negb (handled_type (type event))
  | _ => false
  end.

Definition socket_error (o : Occurrence) : bool :=
  match o with
  | Errored _ => true
  | _ => false
  end.

(** A session without the memory of having received data. *)
Definition core (s : Session) : Session := set_hasReceivedData s false.

(** The timer is armed only while the socket connects. *)
Definition timer_inv (s : Session) : Prop :=
  connectionTimeout s = true -> readyState s = CONNECTING.

(** The calls of [ws.close(code, reason)] in the handlers have written at
    most one close frame, of two kinds only, and then the socket is no
    longer open. *)
Definition close_inv (s : Session) : Prop :=
  closeFrames s = [] \/
  ((closeFrames s = [(1000, "Processing complete")] \/
    closeFrames s = [(1011, "API Error")]) /\
   (readyState s = CLOSING \/ readyState s = CLOSED)).

(** What the [response.audio.delta] messages among [events] carry, in
    order of arrival, a missing [delta] included. *)
Definition audio_deltas_raw (events : list ServerEvent) : list (option string) :=
  flat_map
    (fun e => if (type e =? "response.audio.delta")%string then [delta e] else [])
    events.

End Trace.

(* ================================================================== *)
(** * The Android client: the capture loop of MainActivity.kt           *)
(* ================================================================== *)

Module Android.

Definition SILENCE_THRESHOLD : Z := 700.
Definition SILENCE_DURATION : Z := 20.

(** The variables of the loop.  [processAudio] is not part of the source
    at hand: the model keeps the arrays it is called with. *)
Record State := {
  isProcessing : bool;
  silenceCounter : Z;
  (** the bytes in [capturedAudio] *)
  capturedAudio : list Z;
  (** the arguments of [processAudio], oldest first *)
  processed : list (list Z)
}.

(** [(x and 0xFF)] and [(x shr 8 and 0xFF)], as the byte [write] stores. *)
Definition byte1 (x : Z) : Z := Z.land x 255.
Definition byte2 (x : Z) : Z := Z.land (Z.shiftr x 8) 255.

(** The loop that writes the samples of one read. *)
Definition write_samples (captured : list Z) (samples : list Z) : list Z :=
  fold_left (fun out x => (out ++ [byte1 x]) ++ [byte2 x]) samples captured.

(** [sum / readSize], on Long. *)
Definition average (samples : list Z) : Z :=
  Z.quot (fold_left (fun sum x => sum + Z.abs x) samples 0)
         (Z.of_nat (length samples)).

(** One turn of the loop as far as the source shows it; [samples] are
    the [readSize] first values of [audioBuffer]. *)
Definition read (st : State) (samples : list Z) : State :=
  if 0 <? Z.of_nat (length samples) then
    if average samples >? SILENCE_THRESHOLD then
      {| isProcessing := true;
         silenceCounter := 0;
         capturedAudio := write_samples (capturedAudio st) samples;
         processed := processed st |}
    else if isProcessing st then
      let counter := silenceCounter st + 1 in
      let captured := write_samples (capturedAudio st) samples in
      if counter >? SILENCE_DURATION then
        {| isProcessing := false;
           silenceCounter := 0;
           capturedAudio := [];
           processed := processed st ++ [captured] |}
      else
        {| isProcessing := true;
           silenceCounter := counter;
           capturedAudio := captured;
           processed := processed st |}
    else st
  else st.

Definition read_all (st : State) (reads : list (list Z)) : State :=
  fold_left read reads st.

(** The loop before the first read. *)
Definition idle : State :=
  {| isProcessing := false; silenceCounter := 0;
     capturedAudio := []; processed := [] |}.

End Android.

(* ================================================================== *)
(** * More sample inputs                                                *)
(* ================================================================== *)

Module MoreSamples.
Import Relay Samples.

(** A page that listens, and the same page while a round trip is under
    way. *)
Definition listening_page : Page.State :=
  {| Page.seg := Client.listening; Page.mediaStream := true;
     Page.starting := 0%nat; Page.played := [] |}.

Definition busy_page : Page.State :=
  {| Page.seg := Client.set_isSpeaking Client.listening true;
     Page.mediaStream := true; Page.starting := 0%nat; Page.played := [] |}.

(** A [response.audio.delta] without [delta]. *)
Definition delta_missing : ServerEvent :=
  {| type := "response.audio.delta"; delta := None;
     message := None; reason := None |}.

(** Speech, a short pause, speech, a long silence, speech again. *)
Definition mixed_frames : list Client.Frame :=
  [(loud_frame, 0); (silent_frame, 100); (loud_frame, 300);
   (silent_frame, 2000); (loud_frame, 2100)].

(** A read of speech and a silent read of the Android loop. *)
Definition speech_read : list Z := [1000; -1000; 1200].
Definition silent_read : list Z := [3; -2].

End MoreSamples.

(* ================================================================== *)
(** * Properties of the number model                                    *)
(* ================================================================== *)

Section Rounding.
Import JsNum Client.

Lemma digits2_pos_bounds (p : positive) :
2 ^ (Zpos (digits2_pos p) - 1) <= Zpos p < 2 ^ Zpos (digits2_pos p).
Proof.
induction p as [p IH | p IH | ]; cbn [digits2_pos].
- rewrite Pos2Z.inj_succ.
  replace (Z.succ (Zpos (digits2_pos p)) - 1) with (Z.succ (Zpos (digits2_pos p) - 1)) by lia.
  rewrite !Z.pow_succ_r by lia. lia.
- rewrite Pos2Z.inj_succ.
  replace (Z.succ (Zpos (digits2_pos p)) - 1) with (Z.succ (Zpos (digits2_pos p) - 1)) by lia.
  rewrite !Z.pow_succ_r by lia. lia.
- cbn. lia.
Qed.

Lemma shr_inv_start (M : Z) : 0 <= M -> shr_inv M 0 (shr_record_of_loc M loc_Exact).
Proof.
intros HM. split; [exact HM|]. exists 0. cbn. repeat split; lia.
Qed.

Lemma shr_1_inv (M k : Z) (mrs : shr_record) :
0 <= k -> shr_inv M k mrs -> shr_inv M (k + 1) (shr_1 mrs).
Proof.
intros Hk [Hm [rem [HM [Hrem Hex]]]].
destruct mrs as [m r s]. cbn [shr_m shr_r shr_s] in *.
assert (Hpow : 2 ^ (k + 1) = 2 * 2 ^ k) by (rewrite Z.pow_add_r by lia; lia).
assert (Hpos : 0 < 2 ^ k) by (apply Z.pow_pos_nonneg; lia).
unfold shr_inv.
destruct m as [ | [p | p | ] | p ]; cbn [shr_1 shr_m shr_r shr_s]; try lia;
  (split; [lia|]); rewrite Hpow.
- exists rem. split; [lia | split; [lia |]].
  intros H0. destruct (Hex H0) as [-> ->]. auto.
- exists (2 ^ k + rem). split; [lia | split; [lia |]]. intros H0. lia.
- exists rem. split; [lia | split; [lia |]].
  intros H0. destruct (Hex H0) as [-> ->]. auto.
- exists (2 ^ k + rem). split; [lia | split; [lia |]]. intros H0. lia.
Qed.

Lemma iter_shr_inv (p : positive) :
forall (M k : Z) (mrs : shr_record),
  0 <= k -> shr_inv M k mrs -> shr_inv M (k + Zpos p) (iter_pos shr_1 p mrs).
Proof.
induction p as [p IH | p IH | ]; intros M k mrs Hk Hinv; cbn [iter_pos].
- replace (k + Zpos p~1) with (k + 1 + Zpos p + Zpos p) by lia.
  apply IH; [lia|]. apply IH; [lia|]. apply shr_1_inv; assumption.
- replace (k + Zpos p~0) with (k + Zpos p + Zpos p) by lia.
  apply IH; [lia|]. apply IH; assumption.
- apply shr_1_inv; assumption.
Qed.

Lemma shr_inv_floor (M k X : Z) (mrs : shr_record) :
0 <= k -> shr_inv M k mrs -> M <= X * 2 ^ k -> 0 <= shr_m mrs <= X.
Proof.
intros Hk [Hm [rem [HM [Hrem _]]]] HX.
assert (Hpos : 0 < 2 ^ k) by (apply Z.pow_pos_nonneg; lia).
split; [exact Hm | nia].
Qed.

Lemma shr_inv_round (M k X : Z) (mrs : shr_record) :
0 <= k -> shr_inv M k mrs -> M <= X * 2 ^ k ->
0 <= round_nearest_even (shr_m mrs) (loc_of_shr_record mrs) <= X.
Proof.
intros Hk [Hm [rem [HM [Hrem Hex]]]] HX.
assert (Hpos : 0 < 2 ^ k) by (apply Z.pow_pos_nonneg; lia).
assert (Hfloor : shr_m mrs <= X) by nia.
assert (Hup : rem <> 0 -> shr_m mrs + 1 <= X) by (intros; nia).
destruct mrs as [m r s]. cbn [shr_m shr_r shr_s] in *.
destruct r, s; cbn [loc_of_shr_record round_nearest_even].
- assert (rem <> 0) by (intros H0; destruct (Hex H0); discriminate). lia.
- assert (rem <> 0) by (intros H0; destruct (Hex H0); discriminate).
  destruct (Z.even m); lia.
- lia.
- lia.
Qed.

Lemma fexp_nonpos (C m e : Z) :
0 <= C < 2 ^ 53 -> mag_bound C m e -> fexp prec emax (Zdigits2 m + e) <= 0.
Proof.
intros HC [He [Hm0 Hm]]. unfold fexp, emin, prec, emax.
apply Z.max_lub; [|lia].
destruct m as [ | p | p ]; cbn [Zdigits2]; try lia.
pose proof (digits2_pos_bounds p) as [Hlo _].
assert (Hlt : 2 ^ (Zpos (digits2_pos p) - 1) < 2 ^ (53 - e)).
{ replace (53 - e) with (53 + - e) by lia. rewrite Z.pow_add_r by lia.
  assert (0 < 2 ^ (- e)) by (apply Z.pow_pos_nonneg; lia). nia. }
apply Z.pow_lt_mono_r_iff in Hlt; lia.
Qed.

Lemma mag_bound_split (C m e n : Z) :
0 < n -> e + n <= 0 -> mag_bound C m e -> m <= C * 2 ^ (- (e + n)) * 2 ^ n.
Proof.
intros Hn Hen [He [_ Hm]].
rewrite <- Z.mul_assoc, <- Z.pow_add_r by lia.
replace (- (e + n) + n) with (- e) by lia. exact Hm.
Qed.

Lemma shr_fexp_round (C m e : Z) :
0 <= C < 2 ^ 53 -> mag_bound C m e ->
mag_bound C
  (round_nearest_even (shr_m (fst (shr_fexp prec emax m e loc_Exact)))
                      (loc_of_shr_record (fst (shr_fexp prec emax m e loc_Exact))))
  (snd (shr_fexp prec emax m e loc_Exact)).
Proof.
intros HC Hb. pose proof (fexp_nonpos C m e HC Hb) as Hf.
unfold shr_fexp, shr.
remember (fexp prec emax (Zdigits2 m + e)) as e' eqn:He'.
destruct (e' - e) as [ | n | n ] eqn:Hn; cbn [fst snd].
- cbn. exact Hb.
- assert (Hinv : shr_inv m (0 + Zpos n) (iter_pos shr_1 n (shr_record_of_loc m loc_Exact))).
  { apply iter_shr_inv; [lia|]. apply shr_inv_start. destruct Hb; lia. }
  cbn [Z.add] in Hinv.
  split; [lia|].
  apply (shr_inv_round m (Zpos n) (C * 2 ^ (- (e + Zpos n)))); [lia | exact Hinv |].
  apply mag_bound_split; [lia | lia | exact Hb].
- cbn. exact Hb.
Qed.

Lemma shr_fexp_floor (C m e : Z) :
0 <= C < 2 ^ 53 -> mag_bound C m e ->
mag_bound C (shr_m (fst (shr_fexp prec emax m e loc_Exact)))
            (snd (shr_fexp prec emax m e loc_Exact)).
Proof.
intros HC Hb. pose proof (fexp_nonpos C m e HC Hb) as Hf.
unfold shr_fexp, shr.
remember (fexp prec emax (Zdigits2 m + e)) as e' eqn:He'.
destruct (e' - e) as [ | n | n ] eqn:Hn; cbn [fst snd].
- cbn. exact Hb.
- assert (Hinv : shr_inv m (0 + Zpos n) (iter_pos shr_1 n (shr_record_of_loc m loc_Exact))).
  { apply iter_shr_inv; [lia|]. apply shr_inv_start. destruct Hb; lia. }
  cbn [Z.add] in Hinv.
  split; [lia|].
  apply (shr_inv_floor m (Zpos n) (C * 2 ^ (- (e + Zpos n)))); [lia | exact Hinv |].
  apply mag_bound_split; [lia | lia | exact Hb].
- cbn. exact Hb.
Qed.

Lemma binary_round_aux_bound (C : Z) (sx : bool) (m e : Z) :
0 <= C < 2 ^ 53 -> mag_bound C m e ->
magnitude_le C (binary_round_aux prec emax sx m e loc_Exact) /\
sign_of (binary_round_aux prec emax sx m e loc_Exact) = Some sx.
Proof.
intros HC Hb. unfold binary_round_aux.
pose proof (shr_fexp_round C m e HC Hb) as H1.
destruct (shr_fexp prec emax m e loc_Exact) as [mrs' e']. cbn [fst snd] in H1.
pose proof (shr_fexp_floor C _ _ HC H1) as H2.
destruct (shr_fexp prec emax _ e' loc_Exact) as [mrs'' e'']. cbn [fst snd] in H2.
destruct H2 as [He2 Hm2].
destruct (shr_m mrs'') as [ | p | p ] eqn:Hp.
- cbn. auto.
- replace (e'' <=? emax - prec) with true
    by (symmetry; apply Z.leb_le; unfold emax, prec; lia).
  cbn. split; [split; assumption | reflexivity].
- lia.
Qed.

Lemma truncate_bound (C : Z) (x : number) :
0 <= C -> magnitude_le C x -> - C <= truncate x <= C.
Proof.
intros HC Hx. destruct x as [s | s | | s m e]; cbn [truncate magnitude_le] in *; try lia.
destruct Hx as [He [_ Hm]].
assert (H : 0 <= Z.shiftl (Zpos m) e <= C).
{ replace (Z.shiftl (Zpos m) e) with (Z.shiftr (Zpos m) (- e))
    by (rewrite <- Z.shiftl_opp_r; f_equal; lia).
  rewrite Z.shiftr_div_pow2 by lia.
  assert (0 < 2 ^ (- e)) by (apply Z.pow_pos_nonneg; lia).
  split; [apply Z.div_pos; lia |].
  apply Z.div_le_upper_bound; lia. }
destruct s; cbn [cond_Zopp]; lia.
Qed.

Lemma valid_mantissa_lt (s : bool) (m : positive) (e : Z) :
valid (S754_finite s m e) = true -> Zpos m < 2 ^ 53.
Proof.
unfold valid, valid_binary, bounded, canonical_mantissa, fexp, emin, prec, emax.
intros H. apply andb_prop in H as [H _]. apply Z.eqb_eq in H.
pose proof (digits2_pos_bounds m) as [_ Hhi].
assert (Hd : Zpos (digits2_pos m) <= 53) by lia.
apply Z.lt_le_trans with (1 := Hhi).
apply Z.pow_le_mono_r; lia.
Qed.

Lemma small_exponent_bound (m : positive) (e : Z) :
Zpos m < 2 ^ 53 -> e < -52 -> mag_bound 1 (Zpos m) e.
Proof.
intros Hm He. split; [lia|]. split; [lia|].
assert (2 ^ 53 <= 2 ^ (- e)) by (apply Z.pow_le_mono_r; lia). lia.
Qed.

Lemma unit_exponent_bound (m : positive) :
Zpos m <= 4503599627370496 -> mag_bound 1 (Zpos m) (-52).
Proof.
intros Hm. split; [lia|]. split; [lia|].
change (1 * 2 ^ (- -52)) with 4503599627370496. lia.
Qed.

(** After clamping, a Number is NaN, a zero, or finite of magnitude at
  most one. *)
Lemma clamp_range (x : number) :
valid x = true -> clamp x = S754_nan \/ magnitude_le 1 (clamp x).
Proof.
intros Hv. destruct x as [s | s | | s m e].
- right. destruct s; exact I.
- right. destruct s; cbn; apply unit_exponent_bound; lia.
- left. reflexivity.
- right. pose proof (valid_mantissa_lt s m e Hv) as Hm.
  destruct s; unfold clamp, Math_min, Math_max, one, minus_one;
    cbn [SFcompare is_neg_zero is_pos_zero].
  + destruct (Z.compare_spec (-52) e) as [He | He | He]; cbn [CompOpp magnitude_le].
    * subst e. change (Pos.compare_cont Eq ?a ?b) with (Z.compare (Zpos a) (Zpos b)).
      destruct (Z.compare_spec 4503599627370496 (Zpos m)) as [Hc | Hc | Hc];
        cbn [CompOpp magnitude_le]; apply unit_exponent_bound; lia.
    * apply unit_exponent_bound; lia.
    * apply small_exponent_bound; assumption.
  + destruct (Z.compare_spec (-52) e) as [He | He | He].
    * subst e. change (Pos.compare_cont Eq ?a ?b) with (Z.compare (Zpos a) (Zpos b)).
      destruct (Z.compare_spec 4503599627370496 (Zpos m)) as [Hc | Hc | Hc];
        cbn [SFcompare magnitude_le is_neg_zero is_pos_zero];
        apply unit_exponent_bound; lia.
    * cbn [SFcompare magnitude_le]. apply unit_exponent_bound; lia.
    * cbn [SFcompare magnitude_le]. apply small_exponent_bound; assumption.
Qed.

Lemma scaled_mantissa_bound (C c m : positive) (k e : Z) :
0 <= k -> Zpos c = Zpos C * 2 ^ k -> mag_bound 1 (Zpos m) e ->
mag_bound (Zpos C) (Zpos (m * c)) (e + - k).
Proof.
intros Hk Hc [He [_ Hm]]. split; [lia|]. split; [lia|].
rewrite Pos2Z.inj_mul, Hc.
replace (- (e + - k)) with (k + - e) by lia.
rewrite Z.pow_add_r by lia.
assert (0 < 2 ^ k) by (apply Z.pow_pos_nonneg; lia).
assert (0 < 2 ^ (- e)) by (apply Z.pow_pos_nonneg; lia).
nia.
Qed.

Lemma truncate_sign (x : number) :
(sign_of x = Some true -> truncate x <= 0) /\
(sign_of x = Some false -> 0 <= truncate x).
Proof.
destruct x as [s | s | | s m e]; cbn [sign_of truncate]; try (split; intros; lia).
assert (0 <= Z.shiftl (Zpos m) e) by (apply Z.shiftl_nonneg; lia).
split; intros [= ->]; cbn [cond_Zopp]; lia.
Qed.

(** The scaled sample stays within the signed 16-bit range. *)
Lemma scale_range (s : number) :
s = S754_nan \/ magnitude_le 1 s ->
-32768 <= truncate (scale s) <= 32767.
Proof.
intros [-> | Hs]; [cbn; lia|].
destruct s as [sg | sg | | sg m e]; cbn [magnitude_le] in Hs; try contradiction.
- destruct sg; cbn; lia.
- destruct sg; unfold scale, lt, pzero, SFltb; cbn [SFcompare];
    unfold mul, x8000, x7FFF; cbn [SFmul xorb].
  + assert (Hb : mag_bound 32768 (Zpos (m * 4503599627370496)) (e + -37))
      by (apply (scaled_mantissa_bound 32768 _ m 37 e); [lia | reflexivity | exact Hs]).
    destruct (binary_round_aux_bound 32768 true _ _ ltac:(cbn; lia) Hb) as [Hmag Hsg].
    pose proof (truncate_bound 32768 _ ltac:(lia) Hmag).
    pose proof (proj1 (truncate_sign _) Hsg). lia.
  + assert (Hb : mag_bound 32767 (Zpos (m * 9006924376834048)) (e + -38))
      by (apply (scaled_mantissa_bound 32767 _ m 38 e); [lia | reflexivity | exact Hs]).
    destruct (binary_round_aux_bound 32767 false _ _ ltac:(cbn; lia) Hb) as [Hmag Hsg].
    pose proof (truncate_bound 32767 _ ltac:(lia) Hmag).
    pose proof (proj2 (truncate_sign _) Hsg). lia.
Qed.

Lemma wrap16_small (z : Z) : -32768 <= z <= 32767 -> wrap16 z = z.
Proof.
intros Hz. unfold wrap16.
destruct (Z.neg_nonneg_cases z) as [Hneg | Hpos].
- assert (Hr : z mod 65536 = z + 65536)
    by (symmetry; apply (Z.mod_unique_pos z 65536 (-1)); lia).
  rewrite Hr. destruct (Z.geb_spec (z + 65536) 32768); lia.
- rewrite Z.mod_small by lia. destruct (Z.geb_spec z 32768); lia.
Qed.

End Rounding.

(* ================================================================== *)
(** * Properties of the client                                          *)
(* ================================================================== *)

Section PCM.
Import JsNum Client.

Lemma sample_in_range (x : number) :
  valid x = true ->
  -32768 <= truncate (scale (clamp x)) <= 32767 /\
  ToInt16 (scale (clamp x)) = truncate (scale (clamp x)).
Proof.
  intros Hv.
  pose proof (scale_range (clamp x) (clamp_range x Hv)) as Hr.
  split; [exact Hr | apply wrap16_small; exact Hr].
Qed.

(** C10. Every element [float32To16BitPCM] stores lies in
    [-32768, 32767], and the store loses nothing but the fraction: the
    sample, clamped to magnitude at most one (or NaN), is scaled by 0x8000
    when negative and by 0x7FFF otherwise, and the product already lies in
    the signed 16-bit range, so ToInt16 does not wrap. *)
Theorem float32To16BitPCM_in_range (float32Array : Float32Array) :
  Forall (fun x => valid x = true) float32Array ->
  length (float32To16BitPCM float32Array) = length float32Array /\
  forall (i : nat) (x : number),
    nth_error float32Array i = Some x ->
    (clamp x = S754_nan \/ magnitude_le 1 (clamp x)) /\
    nth_error (float32To16BitPCM float32Array) i
      = Some (truncate (scale (clamp x))) /\
    -32768 <= truncate (scale (clamp x)) <= 32767.
Proof.
  intros Hvalid. split.
  - unfold float32To16BitPCM. apply length_map.
  - intros i x Hx.
    assert (Hv : valid x = true).
    { rewrite Forall_forall in Hvalid. apply Hvalid.
      eapply nth_error_In. exact Hx. }
    destruct (sample_in_range x Hv) as [Hr Hw].
    split; [apply clamp_range; exact Hv|].
    split; [|exact Hr].
    unfold float32To16BitPCM.
    rewrite nth_error_map, Hx. cbn [option_map]. rewrite Hw. reflexivity.
Qed.

Lemma float32To16BitPCM_in_range_witness :
  Forall (fun x => valid x = true) Samples.samples /\
  length (float32To16BitPCM Samples.samples) = length Samples.samples /\
  forall (i : nat) (x : number),
    nth_error Samples.samples i = Some x ->
    (clamp x = S754_nan \/ magnitude_le 1 (clamp x)) /\
    nth_error (float32To16BitPCM Samples.samples) i
      = Some (truncate (scale (clamp x))) /\
    -32768 <= truncate (scale (clamp x)) <= 32767.
Proof.
  assert (Hv : Forall (fun x => valid x = true) Samples.samples)
    by (repeat constructor).
  split; [exact Hv | exact (float32To16BitPCM_in_range Samples.samples Hv)].
Defined.

Example float32To16BitPCM_samples :
  float32To16BitPCM Samples.samples = [32767; -32768; 0; -16384; 16383; 0].
Proof. vm_compute. reflexivity. Qed.

End PCM.

Section Segmenter.
Import JsNum Client.

Lemma totalLength_from (arrays : list Float32Array) :
  forall n : nat,
    fold_left (fun total arr => (total + length arr)%nat) arrays n
    = (n + length (concat arrays))%nat.
Proof.
  induction arrays as [ | a rest IH]; intros n; cbn [fold_left concat].
  - cbn. lia.
  - rewrite IH, length_app. lia.
Qed.

Lemma totalLength_concat (arrays : list Float32Array) :
  totalLength arrays = length (concat arrays).
Proof. unfold totalLength. rewrite totalLength_from. reflexivity. Qed.

Lemma set_at_end (before arr rest : Float32Array) :
  (length arr <= length rest)%nat ->
  set_at (before ++ rest) arr (length before)
  = (before ++ arr) ++ skipn (length arr) rest.
Proof.
  intros Hfit. unfold set_at.
  rewrite firstn_app, firstn_all, Nat.sub_diag, firstn_O, app_nil_r.
  rewrite skipn_app.
  rewrite (skipn_all2 before) by lia.
  replace (length before + length arr - length before)%nat with (length arr) by lia.
  cbn [app]. rewrite <- app_assoc. reflexivity.
Qed.

Lemma concatenate_from (arrays : list Float32Array) :
  forall before rest : Float32Array,
    length rest = length (concat arrays) ->
    fst (fold_left
           (fun '(result, offset) arr =>
              (set_at result arr offset, (offset + length arr)%nat))
           arrays (before ++ rest, length before))
    = before ++ concat arrays.
Proof.
  induction arrays as [ | a more IH]; intros before rest Hlen;
    cbn [fold_left concat] in *.
  - destruct rest; [reflexivity | discriminate].
  - rewrite length_app in Hlen.
    rewrite set_at_end by lia.
    rewrite <- length_app.
    rewrite IH by (rewrite length_skipn; lia).
    rewrite <- app_assoc. reflexivity.
Qed.

(** [concatenateFloat32Arrays] lays the arrays end to end, in order. *)
Lemma concatenateFloat32Arrays_concat (arrays : list Float32Array) :
  concatenateFloat32Arrays arrays = concat arrays.
Proof.
  unfold concatenateFloat32Arrays.
  apply (concatenate_from arrays [] (repeat pzero (totalLength arrays))).
  rewrite repeat_length. apply totalLength_concat.
Qed.

Lemma concat_length_sum (arrays : list Float32Array) :
  length (concat arrays) = list_sum (map (@length number) arrays).
Proof.
  induction arrays as [ | a rest IH]; cbn [concat map list_sum]; [reflexivity|].
  rewrite length_app, IH. reflexivity.
Qed.

(** An empty frame has no RMS (0/0), so it never counts as speech. *)
Lemma above_threshold_nonempty (inputData : Float32Array) :
  above_threshold inputData = true -> (0 < length inputData)%nat.
Proof.
  destruct inputData as [ | x rest]; [vm_compute; discriminate | cbn; lia].
Qed.

Lemma SFcompare_Lt_swap (a b : number) :
  SFcompare a b = Some Lt -> SFcompare b a = Some Gt.
Proof.
  destruct a as [sa | sa | | sa ma ea], b as [sb | sb | | sb mb eb];
    cbn [SFcompare]; try destruct sa; try destruct sb;
    try discriminate; try reflexivity.
  - rewrite (Z.compare_antisym ea eb).
    fold (Pos.compare ma mb). fold (Pos.compare mb ma).
    rewrite (Pos.compare_antisym ma mb).
    destruct (ea ?= eb); cbn [CompOpp]; try discriminate; try reflexivity.
    destruct (ma ?= mb)%positive; cbn [CompOpp]; try discriminate; reflexivity.
  - rewrite (Z.compare_antisym ea eb).
    fold (Pos.compare ma mb). fold (Pos.compare mb ma).
    rewrite (Pos.compare_antisym ma mb).
    destruct (ea ?= eb); cbn [CompOpp]; try discriminate; try reflexivity.
    destruct (ma ?= mb)%positive; cbn [CompOpp]; try discriminate; reflexivity.
Qed.

(** A Number strictly below the threshold is not above it. *)
Lemma below_not_above (inputData : Float32Array) :
  lt (rms inputData) SILENCE_THRESHOLD = true ->
  above_threshold inputData = false.
Proof.
  unfold above_threshold, gt, lt, SFltb. intros H.
  destruct (SFcompare (rms inputData) SILENCE_THRESHOLD) as [[ | | ] | ] eqn:Hc;
    try discriminate.
  rewrite (SFcompare_Lt_swap _ _ Hc). reflexivity.
Qed.

Lemma feed_app (st : State) (xs ys : list Frame) :
  feed st (xs ++ ys) = feed (feed st xs) ys.
Proof. unfold feed. apply fold_left_app. Qed.

(** While the page is busy, frames leave it as it is. *)
Lemma feed_busy (frames : list Frame) :
  forall st : State, isSpeaking st = true -> feed st frames = st.
Proof.
  induction frames as [ | f rest IH]; intros st Hbusy; [reflexivity|].
  cbn [feed fold_left]. unfold onaudioprocess. rewrite Hbusy. cbn [orb].
  apply IH. exact Hbusy.
Qed.

(** With nothing buffered, frames that are not speech change nothing. *)
Lemma feed_silence_idle (frames : list Frame) :
  forall st : State,
    recordingBuffer st = [] ->
    Forall (fun f => above_threshold (fst f) = false) frames ->
    feed st frames = st.
Proof.
  induction frames as [ | f rest IH]; intros st Hbuf Hsil; [reflexivity|].
  inversion Hsil as [ | ? ? Hf Hrest]; subst.
  cbn [feed fold_left].
  assert (Hstep : onaudioprocess st (fst f) (snd f) = st).
  { unfold onaudioprocess.
    destruct (isSpeaking st || negb (isListening st)); [reflexivity|].
    rewrite Hf, Hbuf. reflexivity. }
  rewrite Hstep. apply IH; assumption.
Qed.

Lemma gtb_false (a b : Z) : a <= b -> (a >? b) = false.
Proof. intros H. rewrite Z.gtb_ltb. apply Z.ltb_ge. exact H. Qed.

Lemma gtb_true (a b : Z) : a > b -> (a >? b) = true.
Proof. intros H. rewrite Z.gtb_ltb. apply Z.ltb_lt. lia. Qed.

Lemma last_cons_default (A : Type) (x d : A) (l : list A) :
  last (x :: l) d = last l x.
Proof.
  revert x d. induction l as [ | y l IH]; intros x d; [reflexivity|].
  change (last (x :: y :: l) d) with (last (y :: l) d).
  rewrite (IH y d), (IH y x). reflexivity.
Qed.

(** Speech frames are appended in order and move the time of last speech. *)
Lemma feed_speech (speech : list Frame) :
  forall st : State,
    isSpeaking st = false -> isListening st = true ->
    Forall (fun f => above_threshold (fst f) = true) speech ->
    recordingBuffer (feed st speech) = recordingBuffer st ++ map fst speech /\
    lastSpeechTime (feed st speech) = last_time speech (lastSpeechTime st) /\
    isSpeaking (feed st speech) = false /\
    isListening (feed st speech) = true /\
    posted (feed st speech) = posted st.
Proof.
  induction speech as [ | f rest IH]; intros st Hidle Hon Hloud.
  - cbn. rewrite app_nil_r. auto.
  - inversion Hloud as [ | ? ? Hf Hrest]; subst.
    cbn [feed fold_left].
    set (st1 := onaudioprocess st (fst f) (snd f)).
    assert (Hst1 : recordingBuffer st1 = recordingBuffer st ++ [fst f] /\
                   lastSpeechTime st1 = snd f /\
                   isSpeaking st1 = false /\ isListening st1 = true /\
                   posted st1 = posted st).
    { subst st1. unfold onaudioprocess. rewrite Hidle, Hon, Hf. cbn [orb negb].
      destruct (recordingBuffer st) eqn:Hb; cbn; rewrite ?Hb; auto. }
    destruct Hst1 as (Hb1 & Ht1 & Hs1 & Hl1 & Hp1).
    destruct (IH st1 Hs1 Hl1 Hrest) as (Hb & Ht & Hs & Hl & Hp).
    fold (feed st1 rest).
    rewrite Hb, Ht, Hs, Hl, Hp, Hb1, Ht1, Hp1.
    unfold last_time. cbn [map]. rewrite last_cons_default, <- app_assoc.
    auto.
Qed.

(** Silence that never outlasts the timeout leaves a pending buffer as it
    is. *)
Lemma feed_short_silence (silence : list Frame) :
  forall st : State,
    Forall (fun f => above_threshold (fst f) = false) silence ->
    Forall (fun f => snd f - lastSpeechTime st <= SPEECH_TIMEOUT_MS) silence ->
    feed st silence = st.
Proof.
  induction silence as [ | f rest IH]; intros st Hsil Hshort; [reflexivity|].
  inversion Hsil as [ | ? ? Hf Hrest]; subst.
  inversion Hshort as [ | ? ? Ht Hts]; subst.
  cbn [feed fold_left].
  assert (Hstep : onaudioprocess st (fst f) (snd f) = st).
  { unfold onaudioprocess.
    destruct (isSpeaking st || negb (isListening st)); [reflexivity|].
    rewrite Hf.
    replace (snd f - lastSpeechTime st >? SPEECH_TIMEOUT_MS) with false
      by (symmetry; apply gtb_false; exact Ht).
    rewrite andb_false_r. reflexivity. }
  rewrite Hstep. apply IH; assumption.
Qed.

(** The first silent frame later than the timeout hands the buffered
    frames, concatenated, to [sendAudioToServer], and the page is busy. *)
Lemma feed_trailing_silence (silence : list Frame) :
  forall st : State,
    isSpeaking st = false -> isListening st = true ->
    (0 < length (concat (recordingBuffer st)))%nat ->
    Forall (fun f => above_threshold (fst f) = false) silence ->
    Exists (fun f => snd f - lastSpeechTime st > SPEECH_TIMEOUT_MS) silence ->
    posted (feed st silence) = posted st ++ [concat (recordingBuffer st)] /\
    recordingBuffer (feed st silence) = [] /\
    isSpeaking (feed st silence) = true.
Proof.
  induction silence as [ | f rest IH]; intros st Hidle Hon Hlen Hsil Hex.
  - inversion Hex.
  - inversion Hsil as [ | ? ? Hf Hrest]; subst.
    cbn [feed fold_left]. fold (feed (onaudioprocess st (fst f) (snd f)) rest).
    destruct (Z.gtb_spec (snd f - lastSpeechTime st) SPEECH_TIMEOUT_MS) as [Hlate | Hearly].
    + assert (Hbuf : (0 <? length (recordingBuffer st))%nat = true).
      { apply Nat.ltb_lt. destruct (recordingBuffer st); cbn in *; lia. }
      assert (Hstep : onaudioprocess st (fst f) (snd f)
                      = sendAudioToServer (set_recordingBuffer st [])
                          (concat (recordingBuffer st))).
      { unfold onaudioprocess. rewrite Hidle, Hon, Hf, Hbuf. cbn [orb negb andb].
        replace (snd f - lastSpeechTime st >? SPEECH_TIMEOUT_MS) with true
          by (symmetry; apply gtb_true; lia).
        rewrite concatenateFloat32Arrays_concat.
        replace (0 <? length (concat (recordingBuffer st)))%nat with true
          by (symmetry; apply Nat.ltb_lt; exact Hlen).
        reflexivity. }
      rewrite Hstep. unfold sendAudioToServer. cbn [set_recordingBuffer isSpeaking].
      rewrite Hidle. rewrite feed_busy by reflexivity. cbn. auto.
    + assert (Hstep : onaudioprocess st (fst f) (snd f) = st).
      { unfold onaudioprocess. rewrite Hidle, Hon, Hf. cbn [orb negb].
        replace (snd f - lastSpeechTime st >? SPEECH_TIMEOUT_MS) with false
          by (symmetry; apply gtb_false; lia).
        rewrite andb_false_r. reflexivity. }
      rewrite Hstep. apply IH; try assumption.
      inversion Hex as [? ? Hnow | ? ? Hlater]; subst; [lia | exact Hlater].
Qed.

Lemma speech_frames_nonempty (speech : list Frame) :
  speech <> [] ->
  Forall (fun f => above_threshold (fst f) = true) speech ->
  (0 < length (concat (map fst speech)))%nat.
Proof.
  intros Hne Hloud. destruct speech as [ | f rest]; [contradiction|].
  inversion Hloud as [ | ? ? Hf _]; subst.
  cbn [map concat]. rewrite length_app.
  pose proof (above_threshold_nonempty _ Hf). lia.
Qed.

(** C7 (amended). Contiguous frames above the threshold, followed by
    frames not above it of which one arrives more than SPEECH_TIMEOUT_MS
    after the last frame of speech, make the segmenter hand over exactly one
    utterance: the frames of speech laid end to end, whose length is the
    sum of their lengths.  No sample of a silent frame is part of it. *)
Theorem one_utterance_after_trailing_silence
    (st : State) (speech silence : list Frame) :
  isListening st = true -> isSpeaking st = false -> recordingBuffer st = [] ->
  speech <> [] ->
  Forall (fun f => above_threshold (fst f) = true) speech ->
  Forall (fun f => above_threshold (fst f) = false) silence ->
  Exists (fun f => snd f - last_time speech 0 > SPEECH_TIMEOUT_MS) silence ->
  posted (feed st (speech ++ silence))
    = posted st ++ [concat (map fst speech)] /\
  length (concat (map fst speech))
    = list_sum (map (fun f => length (fst f)) speech) /\
  recordingBuffer (feed st (speech ++ silence)) = [].
Proof.
  intros Hon Hidle Hempty Hne Hloud Hsil Hlate.
  destruct (feed_speech speech st Hidle Hon Hloud) as (Hb & Ht & Hs & Hl & Hp).
  rewrite Hempty in Hb. cbn [app] in Hb.
  assert (Hlast : lastSpeechTime (feed st speech) = last_time speech 0).
  { rewrite Ht. destruct speech as [ | f rest]; [contradiction|].
    unfold last_time. cbn [map]. rewrite !last_cons_default. reflexivity. }
  rewrite feed_app.
  destruct (feed_trailing_silence silence (feed st speech) Hs Hl) as (Hp2 & Hb2 & _).
  - rewrite Hb. apply speech_frames_nonempty; assumption.
  - exact Hsil.
  - rewrite Hlast. exact Hlate.
  - rewrite Hp2, Hb2, Hb, Hp. split; [reflexivity|]. split; [|reflexivity].
    rewrite concat_length_sum, map_map. reflexivity.
Qed.

Lemma one_utterance_after_trailing_silence_witness :
  posted (feed listening ([(Samples.loud_frame, 0); (Samples.loud_frame, 256)]
                          ++ [(Samples.silent_frame, 512); (Samples.silent_frame, 1757)]))
    = posted listening ++ [concat (map fst [(Samples.loud_frame, 0); (Samples.loud_frame, 256)])] /\
  length (concat (map fst [(Samples.loud_frame, 0); (Samples.loud_frame, 256)]))
    = list_sum (map (fun f => length (fst f)) [(Samples.loud_frame, 0); (Samples.loud_frame, 256)]) /\
  recordingBuffer (feed listening ([(Samples.loud_frame, 0); (Samples.loud_frame, 256)]
                          ++ [(Samples.silent_frame, 512); (Samples.silent_frame, 1757)])) = [].
Proof.
  apply (one_utterance_after_trailing_silence listening
           [(Samples.loud_frame, 0); (Samples.loud_frame, 256)]
           [(Samples.silent_frame, 512); (Samples.silent_frame, 1757)]).
  - reflexivity.
  - reflexivity.
  - reflexivity.
  - discriminate.
  - repeat constructor.
  - repeat constructor.
  - apply Exists_cons_tl, Exists_cons_hd. vm_compute. reflexivity.
Defined.

(** C7 as the specification words it fails on the boundary: a silent frame
    exactly SPEECH_TIMEOUT_MS after the last frame of speech spans "at
    least" the trailing-silence duration, and nothing is handed over. *)
Lemma trailing_silence_boundary_counterexample :
  Forall (fun f => above_threshold (fst f) = true) [(Samples.loud_frame, 0)] /\
  Forall (fun f => above_threshold (fst f) = false) [(Samples.silent_frame, 1500)] /\
  Exists (fun f => snd f - last_time [(Samples.loud_frame, 0)] 0 >= SPEECH_TIMEOUT_MS)
         [(Samples.silent_frame, 1500)] /\
  posted (feed listening ([(Samples.loud_frame, 0)] ++ [(Samples.silent_frame, 1500)])) = [] /\
  recordingBuffer (feed listening ([(Samples.loud_frame, 0)] ++ [(Samples.silent_frame, 1500)]))
    = [Samples.loud_frame].
Proof.
  split; [repeat constructor|].
  split; [repeat constructor|].
  split; [apply Exists_cons_hd; vm_compute; discriminate|].
  split; vm_compute; reflexivity.
Qed.

(** C8. A frame that arrives while the page is busy is dropped whole:
    nothing is buffered, the time of last speech stays, nothing is handed
    over, whatever the frame holds. *)
Theorem busy_frame_is_dropped
    (st : State) (inputData : Float32Array) (currentTime : Z) :
  isSpeaking st = true ->
  onaudioprocess st inputData currentTime = st /\
  recordingBuffer (onaudioprocess st inputData currentTime) = recordingBuffer st /\
  lastSpeechTime (onaudioprocess st inputData currentTime) = lastSpeechTime st /\
  posted (onaudioprocess st inputData currentTime) = posted st.
Proof.
  intros Hbusy.
  assert (H : onaudioprocess st inputData currentTime = st)
    by (unfold onaudioprocess; rewrite Hbusy; reflexivity).
  rewrite H. auto.
Qed.

Lemma busy_frame_is_dropped_witness :
  onaudioprocess (set_isSpeaking listening true) Samples.loud_frame 42
    = set_isSpeaking listening true /\
  recordingBuffer (onaudioprocess (set_isSpeaking listening true) Samples.loud_frame 42)
    = recordingBuffer (set_isSpeaking listening true) /\
  lastSpeechTime (onaudioprocess (set_isSpeaking listening true) Samples.loud_frame 42)
    = lastSpeechTime (set_isSpeaking listening true) /\
  posted (onaudioprocess (set_isSpeaking listening true) Samples.loud_frame 42)
    = posted (set_isSpeaking listening true).
Proof.
  apply (busy_frame_is_dropped (set_isSpeaking listening true) Samples.loud_frame 42).
  reflexivity.
Defined.

(** C9. Frames whose RMS is below the threshold, fed to a segmenter that
    has nothing buffered, never make it hand over an utterance: at the end
    of any such run the buffer is still empty and nothing new was posted. *)
Theorem silence_never_emits (st : State) (frames : list Frame) :
  recordingBuffer st = [] ->
  Forall (fun f => lt (rms (fst f)) SILENCE_THRESHOLD = true) frames ->
  recordingBuffer (feed st frames) = [] /\
  posted (feed st frames) = posted st.
Proof.
  intros Hempty Hbelow.
  rewrite feed_silence_idle; [auto | exact Hempty |].
  apply Forall_impl with (2 := Hbelow).
  intros f. apply below_not_above.
Qed.

Lemma silence_never_emits_witness :
  recordingBuffer (feed listening [(Samples.silent_frame, 0); (Samples.silent_frame, 3000)]) = [] /\
  posted (feed listening [(Samples.silent_frame, 0); (Samples.silent_frame, 3000)])
    = posted listening.
Proof.
  apply (silence_never_emits listening [(Samples.silent_frame, 0); (Samples.silent_frame, 3000)]).
  - reflexivity.
  - repeat constructor.
Defined.

End Segmenter.

(* ================================================================== *)
(** * Properties of the relay                                           *)
(* ================================================================== *)

Section RelayFacts.
Import Relay.

Variable rt : Runtime.
Variable audioBuffer : Buffer.

Local Abbreviation deliver := (Relay.deliver rt audioBuffer).
Local Abbreviation run := (Relay.run rt audioBuffer).
Local Abbreviation dispatch := (Relay.dispatch rt audioBuffer).
Local Abbreviation incoming := (Relay.incoming rt audioBuffer).
Local Abbreviation configure := (Relay.configure rt audioBuffer).

(** The three configuring messages, in the order they are written. *)
Local Abbreviation configuring :=
  [session_update (OPENAI_VOICE rt) INSTRUCTIONS;
   conversation_item_create (Buffer_toString_base64 rt audioBuffer);
   response_create ["audio"; "text"]].

Lemma run_app (s : Session) (xs ys : list Occurrence) :
  run s (xs ++ ys) = run (run s xs) ys.
Proof. unfold Relay.run. apply fold_left_app. Qed.

Lemma run_cons (s : Session) (o : Occurrence) (rest : list Occurrence) :
  run s (o :: rest) = run (deliver s o) rest.
Proof. reflexivity. Qed.

(** ** What the socket operations leave alone *)

Lemma promise_ws_close (s : Session) (code : Z) (why : string) :
  promise (ws_close s code why) = promise s.
Proof. unfold ws_close. destruct (readyState s); reflexivity. Qed.

Lemma promise_ws_send (s : Session) (m : ClientEvent) :
  promise (ws_send s m) = promise s.
Proof. unfold ws_send. destruct (readyState s); reflexivity. Qed.

Lemma promise_configure (s : Session) : promise (configure s) = promise s.
Proof. unfold Relay.configure. rewrite !promise_ws_send. reflexivity. Qed.

Lemma resolve_settled (p : Promise) (v : string) :
  settled p = true -> resolve p v = p.
Proof. destruct p; [discriminate | reflexivity | reflexivity]. Qed.

Lemma reject_settled (p : Promise) (m : string) :
  settled p = true -> reject p m = p.
Proof. destruct p; [discriminate | reflexivity | reflexivity]. Qed.

(** ** Settlement is final *)

Lemma dispatch_settled (s : Session) (event : ServerEvent) :
  settled (promise s) = true -> promise (dispatch s event) = promise s.
Proof.
  intros Hs. unfold Relay.dispatch.
  repeat match goal with
         | |- context [if ?c then _ else _] => destruct c
         | |- context [match delta event with _ => _ end] => destruct (delta event)
         end;
    cbn [promise set_promise push_chunk];
    rewrite ?promise_configure, ?promise_ws_close;
    rewrite ?resolve_settled, ?reject_settled by exact Hs;
    reflexivity.
Qed.

Lemma deliver_settled (s : Session) (o : Occurrence) :
  settled (promise s) = true -> promise (deliver s o) = promise s.
Proof.
  intros Hs. destruct o as [ | parsed | err | code why | ]; cbn [Relay.deliver].
  - destruct (readyState s); reflexivity.
  - assert (Hin : promise (incoming s parsed) = promise s).
    { unfold Relay.incoming. destruct parsed as [event | ]; [|reflexivity].
      rewrite dispatch_settled; [reflexivity | exact Hs]. }
    destruct (readyState s); auto.
  - unfold error. cbn [promise set_promise clearTimeout].
    apply reject_settled. exact Hs.
  - destruct (readyState s); reflexivity.
  - destruct (connectionTimeout s); [|reflexivity].
    unfold on_timeout.
    destruct (_ || _); [|reflexivity].
    cbn [promise set_promise]. rewrite promise_ws_close.
    cbn [promise clearTimeout]. apply reject_settled. exact Hs.
Qed.

Lemma run_settled (trace : list Occurrence) :
  forall s : Session,
    settled (promise s) = true -> promise (run s trace) = promise s.
Proof.
  induction trace as [ | o rest IH]; intros s Hs; [reflexivity|].
  rewrite run_cons, IH; rewrite deliver_settled by exact Hs; auto.
Qed.

(** C4. Once the promise of an exchange is settled, resolved or rejected,
    nothing that happens later (the timer, a close, an error, a message)
    changes it, nor the response the route has made of it. *)
Theorem settlement_is_final (s : Session) (later : list Occurrence) :
  settled (promise s) = true ->
  promise (run s later) = promise s /\
  respond (promise (run s later)) = respond (promise s).
Proof.
  intros Hs. rewrite run_settled by exact Hs. auto.
Qed.

(** ** The configuring messages *)

Lemma configure_sent (s : Session) :
  sent s = [] ->
  isSessionConfigured (configure s) = true /\
  (sent (configure s) = [] \/ sent (configure s) = configuring).
Proof.
  intros Hsent. destruct s as [rs snt cf chunks cfg recv tm p].
  cbn [sent] in Hsent. subst snt.
  destruct rs; cbn; auto.
Qed.

Lemma dispatch_sent (s : Session) (event : ServerEvent) :
  (isSessionConfigured s = false -> sent s = []) ->
  (sent s = [] \/ sent s = configuring) ->
  (isSessionConfigured (dispatch s event) = false -> sent (dispatch s event) = []) /\
  (sent (dispatch s event) = [] \/ sent (dispatch s event) = configuring).
Proof.
  intros Hflag Hsent. unfold Relay.dispatch.
  destruct ((type event =? "session.created")%string && negb (isSessionConfigured s))
    eqn:Hfirst.
  - apply andb_prop in Hfirst as [_ Hcfg]. apply negb_true_iff in Hcfg.
    destruct (configure_sent s (Hflag Hcfg)) as [Hdone Hmsgs].
    split; [rewrite Hdone; discriminate | exact Hmsgs].
  - destruct s as [rs snt cf chunks cfg recv tm p].
    cbn [sent isSessionConfigured] in Hflag, Hsent.
    repeat match goal with
           | |- context [if ?c then _ else _] => destruct c
           | |- context [match delta event with _ => _ end] => destruct (delta event)
           end;
      destruct rs; cbn; auto.
Qed.

Lemma deliver_sent (s : Session) (o : Occurrence) :
  (isSessionConfigured s = false -> sent s = []) ->
  (sent s = [] \/ sent s = configuring) ->
  (isSessionConfigured (deliver s o) = false -> sent (deliver s o) = []) /\
  (sent (deliver s o) = [] \/ sent (deliver s o) = configuring).
Proof.
  intros Hflag Hsent.
  destruct o as [ | parsed | err | code why | ]; cbn [Relay.deliver].
  - destruct (readyState s); auto.
  - assert (Hin : (isSessionConfigured (incoming s parsed) = false ->
                   sent (incoming s parsed) = []) /\
                  (sent (incoming s parsed) = [] \/
                   sent (incoming s parsed) = configuring)).
    { unfold Relay.incoming. destruct parsed as [event | ].
      - apply dispatch_sent; assumption.
      - auto. }
    destruct (readyState s); auto.
  - auto.
  - destruct (readyState s); auto.
  - destruct (connectionTimeout s); [|auto].
    unfold on_timeout. destruct (_ || _); [|auto].
    destruct s as [rs snt cf chunks cfg recv tm p]. destruct rs; cbn; auto.
Qed.

Lemma run_sent (trace : list Occurrence) :
  forall s : Session,
    (isSessionConfigured s = false -> sent s = []) ->
    (sent s = [] \/ sent s = configuring) ->
    sent (run s trace) = [] \/ sent (run s trace) = configuring.
Proof.
  induction trace as [ | o rest IH]; intros s Hflag Hsent; [exact Hsent|].
  rewrite run_cons.
  destruct (deliver_sent s o Hflag Hsent) as [Hflag' Hsent'].
  apply IH; assumption.
Qed.

(** C3. Whatever happens to a session, duplicate [session.created]
    messages included, what it has written to the socket is nothing, or
    session.update, conversation.item.create and response.create, once
    each and in that order. *)
Theorem configuring_messages_at_most_once
    (sampleRate : Z) (trace : list Occurrence) :
  sent (processAudioWithOpenAI rt audioBuffer sampleRate trace) = [] \/
  (sent (processAudioWithOpenAI rt audioBuffer sampleRate trace)
     = [session_update (OPENAI_VOICE rt) INSTRUCTIONS;
        conversation_item_create (Buffer_toString_base64 rt audioBuffer);
        response_create ["audio"; "text"]] /\
   map client_event_type
       (sent (processAudioWithOpenAI rt audioBuffer sampleRate trace))
     = ["session.update"; "conversation.item.create"; "response.create"]).
Proof.
  unfold processAudioWithOpenAI.
  destruct (run_sent trace connect) as [Hnone | Hall].
  - reflexivity.
  - left. reflexivity.
  - left. exact Hnone.
  - right. split; [exact Hall | rewrite Hall; reflexivity].
Qed.

(** ** Joining fragments *)

Lemma append_nil_r (x : string) : String.append x "" = x.
Proof. induction x as [ | c x IH]; cbn; [reflexivity | rewrite IH; reflexivity]. Qed.

Lemma append_assoc (x y z : string) :
  String.append (String.append x y) z = String.append x (String.append y z).
Proof. induction x as [ | c x IH]; cbn; [reflexivity | rewrite IH; reflexivity]. Qed.

Lemma join_cons (x : string) (xs : list string) :
  join (x :: xs) = String.append x (join xs).
Proof.
  unfold join. destruct xs as [ | y ys]; cbn [String.concat].
  - symmetry. apply append_nil_r.
  - reflexivity.
Qed.

Lemma join_app (xs ys : list string) :
  join (xs ++ ys) = String.append (join xs) (join ys).
Proof.
  induction xs as [ | x xs IH]; [reflexivity|].
  cbn [app]. rewrite !join_cons, IH, append_assoc. reflexivity.
Qed.

Lemma join_snoc (xs : list string) (d : string) :
  join (xs ++ [d]) = String.append (join xs) d.
Proof. rewrite join_app. reflexivity. Qed.

(** ** Streaming: what a message that does not end the exchange does *)

Lemma dispatch_streaming (s : Session) (event : ServerEvent) :
  readyState s = OPEN -> promise s = Pending -> terminal event = false ->
  readyState (dispatch s event) = OPEN /\
  promise (dispatch s event) = Pending /\
  join (responseAudioChunks (dispatch s event))
    = String.append (join (responseAudioChunks s)) (join (audio_deltas [event])).
Proof.
  intros Hopen Hpend Hterm. unfold terminal in Hterm.
  apply orb_false_elim in Hterm as [Hterm Hserr].
  apply orb_false_elim in Hterm as [Hdone Herr].
  destruct s as [rs snt cf chunks cfg recv tm p].
  cbn [readyState promise] in Hopen, Hpend. subst rs p.
  unfold Relay.dispatch, audio_deltas. cbn [flat_map app].
  rewrite Hdone, Herr, Hserr, app_nil_r. cbn [orb isSessionConfigured].
  destruct (String.eqb_spec (type event) "session.created") as [Hty | Hty].
  - rewrite Hty. cbn [String.eqb Ascii.eqb Bool.eqb andb].
    destruct cfg; cbn; rewrite append_nil_r; auto.
  - cbn [andb].
    destruct (type event =? "response.audio.delta")%string.
    + destruct (delta event) as [d | ]; cbn [truthy].
      * destruct (String.eqb_spec d "") as [-> | Hd]; cbn [negb].
        -- cbn. rewrite append_nil_r. auto.
        -- cbn [readyState promise responseAudioChunks push_chunk].
           rewrite join_snoc. auto.
      * cbn. rewrite append_nil_r. auto.
    + destruct (type event =? "response.text.delta")%string;
        cbn; rewrite append_nil_r; auto.
Qed.

Lemma audio_deltas_cons (event : ServerEvent) (rest : list ServerEvent) :
  audio_deltas (event :: rest) = audio_deltas [event] ++ audio_deltas rest.
Proof. unfold audio_deltas. cbn [flat_map]. rewrite app_nil_r. reflexivity. Qed.

Lemma run_streaming (events : list ServerEvent) :
  forall s : Session,
    readyState s = OPEN -> promise s = Pending ->
    forallb (fun e => negb (terminal e)) events = true ->
    readyState (run s (map (fun e => Message (Some e)) events)) = OPEN /\
    promise (run s (map (fun e => Message (Some e)) events)) = Pending /\
    join (responseAudioChunks (run s (map (fun e => Message (Some e)) events)))
      = String.append (join (responseAudioChunks s)) (join (audio_deltas events)).
Proof.
  induction events as [ | event rest IH]; intros s Hopen Hpend Hnt.
  - cbn. rewrite append_nil_r. auto.
  - cbn [forallb] in Hnt. apply andb_prop in Hnt as [He Hrest].
    apply negb_true_iff in He.
    cbn [map]. rewrite run_cons. cbn [Relay.deliver]. rewrite Hopen.
    unfold Relay.incoming.
    destruct (dispatch_streaming (set_hasReceivedData s true) event Hopen Hpend He)
      as (Ho & Hp & Hj).
    destruct (IH _ Ho Hp Hrest) as (Ho' & Hp' & Hj').
    rewrite Ho', Hp', Hj', Hj. cbn [responseAudioChunks set_hasReceivedData].
    rewrite (audio_deltas_cons event rest), join_app, append_assoc.
    repeat split.
Qed.

Lemma deliver_message_open (s : Session) (event : ServerEvent) :
  readyState s = OPEN ->
  deliver s (Message (Some event)) = dispatch (set_hasReceivedData s true) event.
Proof. intros Hopen. cbn [Relay.deliver]. rewrite Hopen. reflexivity. Qed.

(** ** The two messages that end an exchange *)

Lemma dispatch_done (s : Session) (event : ServerEvent) :
  readyState s = OPEN -> promise s = Pending -> type event = "response.done" ->
  promise (dispatch s event) = Resolved (join (responseAudioChunks s)) /\
  closeFrames (dispatch s event) = closeFrames s ++ [(1000, "Processing complete")] /\
  readyState (dispatch s event) = CLOSING.
Proof.
  intros Hopen Hpend Hty.
  destruct s as [rs snt cf chunks cfg recv tm p].
  cbn [readyState promise] in Hopen, Hpend. subst rs p.
  unfold Relay.dispatch. rewrite Hty. cbn. auto.
Qed.

Lemma dispatch_error (s : Session) (event : ServerEvent) :
  readyState s = OPEN -> promise s = Pending ->
  type event = "error" \/ type event = "session.error" ->
  promise (dispatch s event)
    = Rejected (String.append "OpenAI API Error: "
                  (or_literal (or_else (message event) (reason event))
                              "Unknown API error")) /\
  closeFrames (dispatch s event) = closeFrames s ++ [(1011, "API Error")] /\
  readyState (dispatch s event) = CLOSING.
Proof.
  intros Hopen Hpend Hty.
  destruct s as [rs snt cf chunks cfg recv tm p].
  cbn [readyState promise] in Hopen, Hpend. subst rs p.
  unfold Relay.dispatch.
  destruct Hty as [Hty | Hty]; rewrite Hty; cbn; auto.
Qed.

(** ** A closing socket belongs to a settled exchange *)

Lemma settled_resolve (p : Promise) (v : string) : settled (resolve p v) = true.
Proof. destruct p; reflexivity. Qed.

Lemma settled_reject (p : Promise) (m : string) : settled (reject p m) = true.
Proof. destruct p; reflexivity. Qed.

Lemma dispatch_closing (s : Session) (event : ServerEvent) :
  (readyState s = CLOSING -> settled (promise s) = true) ->
  readyState (dispatch s event) = CLOSING ->
  settled (promise (dispatch s event)) = true.
Proof.
  intros Hinv. unfold Relay.dispatch.
  repeat match goal with
         | |- context [if ?c then _ else _] => destruct c
         | |- context [match delta event with _ => _ end] => destruct (delta event)
         end;
    cbn [promise set_promise]; rewrite ?settled_resolve, ?settled_reject;
    try reflexivity;
    destruct s as [rs snt cf chunks cfg recv tm p]; destruct rs; cbn in *;
    intros H; try discriminate; auto.
Qed.

Lemma deliver_closing (s : Session) (o : Occurrence) :
  (readyState s = CLOSING -> settled (promise s) = true) ->
  readyState (deliver s o) = CLOSING ->
  settled (promise (deliver s o)) = true.
Proof.
  intros Hinv.
  destruct o as [ | parsed | err | code why | ]; cbn [Relay.deliver].
  - destruct (readyState s) eqn:Hrs; cbn; try discriminate; intros; auto;
      rewrite Hrs in *; try discriminate.
  - assert (Hin : readyState (incoming s parsed) = CLOSING ->
                  settled (promise (incoming s parsed)) = true).
    { unfold Relay.incoming. destruct parsed as [event | ].
      - apply dispatch_closing. exact Hinv.
      - exact Hinv. }
    destruct (readyState s) eqn:Hrs; auto; intros H; congruence.
  - intros _. unfold error. cbn [promise set_promise]. apply settled_reject.
  - destruct (readyState s) eqn:Hrs; cbn; try discriminate.
    intros H; congruence.
  - destruct (connectionTimeout s); [|exact Hinv].
    unfold on_timeout. destruct (_ || _).
    + intros _. cbn [promise set_promise]. apply settled_reject.
    + exact Hinv.
Qed.

Lemma run_closing (trace : list Occurrence) :
  forall s : Session,
    (readyState s = CLOSING -> settled (promise s) = true) ->
    readyState (run s trace) = CLOSING ->
    settled (promise (run s trace)) = true.
Proof.
  induction trace as [ | o rest IH]; intros s Hinv; [exact Hinv|].
  rewrite run_cons. apply IH. apply deliver_closing. exact Hinv.
Qed.

(** A pending exchange whose socket can hand over a message has an open
    socket. *)
Lemma pending_accepting_is_open (trace : list Occurrence) :
  promise (run connect trace) = Pending ->
  accepts_messages (run connect trace) = true ->
  readyState (run connect trace) = OPEN.
Proof.
  intros Hpend Hacc. unfold accepts_messages in Hacc.
  destruct (readyState (run connect trace)) eqn:Hrs; try discriminate.
  - reflexivity.
  - assert (Hs : settled (promise (run connect trace)) = true).
    { apply run_closing; [discriminate | exact Hrs]. }
    rewrite Hpend in Hs. discriminate.
Qed.

(** ** A session nobody talks to *)

Lemma deliver_quiet (s : Session) (o : Occurrence) :
  connectionTimeout s = false -> quiet o = true ->
  connectionTimeout (deliver s o) = false /\
  promise (deliver s o) = promise s.
Proof.
  intros Htimer Hq.
  destruct o as [ | parsed | err | code why | ]; try discriminate;
    cbn [Relay.deliver].
  - destruct (readyState s); cbn; auto.
  - destruct (readyState s); cbn; auto.
  - rewrite Htimer. auto.
Qed.

Lemma run_quiet (trace : list Occurrence) :
  forall s : Session,
    connectionTimeout s = false -> forallb quiet trace = true ->
    promise (run s trace) = promise s.
Proof.
  induction trace as [ | o rest IH]; intros s Htimer Hq; [reflexivity|].
  cbn [forallb] in Hq. apply andb_prop in Hq as [Ho Hrest].
  destruct (deliver_quiet s o Htimer Ho) as [Ht Hp].
  rewrite run_cons, IH, Hp; auto.
Qed.

End RelayFacts.

(* ================================================================== *)
(** * Properties of the route                                           *)
(* ================================================================== *)

Section Route.
Import Relay.

Variable rt : Runtime.

Lemma truthy_nonempty (a : string) : truthy (Some a) = true <-> a <> "".
Proof.
  cbn [truthy]. rewrite negb_true_iff. apply String.eqb_neq.
Qed.

(** A request that carries audio is handed to one relay session, and the
    response is what the promise of that session makes of it. *)
Lemma process_audio_relays (req : RequestBody) (a : string)
    (upstream : list Occurrence) :
  audio req = Some a -> a <> "" ->
  process_audio rt req upstream
  = (respond (promise (run rt (Buffer_from_base64 rt a) connect upstream)),
     [run rt (Buffer_from_base64 rt a) connect upstream]).
Proof.
  intros Ha Hne. unfold process_audio, processAudioWithOpenAI.
  rewrite Ha. apply truthy_nonempty in Hne. rewrite Hne. reflexivity.
Qed.

(** A request whose handling is still pending was handed to a session
    whose promise is pending. *)
Lemma process_audio_pending (req : RequestBody) (upstream : list Occurrence)
    (s : Session) :
  process_audio rt req upstream = (None, [s]) ->
  exists a, audio req = Some a /\ a <> "" /\
            s = run rt (Buffer_from_base64 rt a) connect upstream /\
            promise s = Pending.
Proof.
  unfold process_audio, processAudioWithOpenAI. intros H.
  destruct (audio req) as [a | ] eqn:Ha; [|discriminate].
  destruct (truthy (Some a)) eqn:Ht; cbn [negb] in H; [|discriminate].
  injection H as Hresp Hs. exists a.
  split; [reflexivity|]. split; [apply truthy_nonempty; exact Ht|].
  split; [symmetry; exact Hs|].
  subst s. destruct (promise _); [reflexivity | discriminate | discriminate].
Qed.

(** C2. The fragments of the [response.audio.delta] messages that arrive
    on the open socket before [response.done], with no terminal message
    among them, are joined in order of arrival, none dropped, none moved:
    the promise resolves with their concatenation and the request is
    answered 200 with that string as [audio]. *)
Theorem relay_concatenates_fragments
    (req : RequestBody) (a : string)
    (events : list ServerEvent) (done : ServerEvent) :
  audio req = Some a -> a <> "" ->
  forallb (fun e => negb (terminal e)) events = true ->
  type done = "response.done" ->
  exists session : Session,
    process_audio rt req
      (Opened :: map (fun e => Message (Some e)) (events ++ [done]))
    = (Some {| status := 200;
               body := audio_body (String.concat "" (audio_deltas events)) |},
       [session]) /\
    promise session = Resolved (String.concat "" (audio_deltas events)).
Proof.
  intros Ha Hne Hstream Hdone.
  rewrite (process_audio_relays req a _ Ha Hne).
  set (audioBuffer := Buffer_from_base64 rt a).
  assert (Hp : promise (run rt audioBuffer connect
                 (Opened :: map (fun e => Message (Some e)) (events ++ [done])))
               = Resolved (String.concat "" (audio_deltas events))).
  { rewrite run_cons, map_app, run_app.
    destruct (run_streaming rt audioBuffer events
                (deliver rt audioBuffer connect Opened)
                eq_refl eq_refl Hstream) as (Ho & Hpend & Hj).
    set (s1 := run rt audioBuffer (deliver rt audioBuffer connect Opened)
                 (map (fun e => Message (Some e)) events)) in *.
    change (run rt audioBuffer s1 (map (fun e => Message (Some e)) [done]))
      with (deliver rt audioBuffer s1 (Message (Some done))).
    rewrite deliver_message_open by exact Ho.
    destruct (dispatch_done rt audioBuffer (set_hasReceivedData s1 true) done
                Ho Hpend Hdone) as (Hres & _ & _).
    rewrite Hres. cbn [responseAudioChunks set_hasReceivedData].
    rewrite Hj. reflexivity. }
  eexists. split; [|exact Hp]. rewrite Hp. reflexivity.
Qed.

(** C5. An [error] or [session.error] message that reaches a pending
    exchange rejects it: the request is answered 500, [details] carries the
    message of the event (or its reason, or a fixed text), whatever comes
    later, and the socket is closed with code 1011. *)
Theorem upstream_error_is_surfaced
    (req : RequestBody) (trace later : list Occurrence)
    (event : ServerEvent) (s : Session) :
  process_audio rt req trace = (None, [s]) ->
  accepts_messages s = true ->
  type event = "error" \/ type event = "session.error" ->
  (exists s' : Session,
     process_audio rt req (trace ++ Message (Some event) :: later)
     = (Some {| status := 500;
                body := error_body "Erro interno ao processar áudio"
                          (Some (String.append "OpenAI API Error: "
                                   (or_literal
                                      (or_else (message event) (reason event))
                                      "Unknown API error"))) |},
        [s'])) /\
  (exists s1 : Session,
     snd (process_audio rt req (trace ++ [Message (Some event)])) = [s1] /\
     closeFrames s1 = closeFrames s ++ [(1011, "API Error")]) /\
  (forall m : string,
     message event = Some m -> m <> "" ->
     contains (String.append "OpenAI API Error: "
                 (or_literal (or_else (message event) (reason event))
                             "Unknown API error"))
              m).
Proof.
  intros Hpending Hacc Hty.
  destruct (process_audio_pending req trace s Hpending)
    as (a & Ha & Hne & Hs & Hpend).
  set (audioBuffer := Buffer_from_base64 rt a) in *.
  assert (Hopen : readyState s = OPEN).
  { subst s. apply pending_accepting_is_open; assumption. }
  pose proof (deliver_message_open rt audioBuffer s event Hopen) as Hstep.
  destruct (dispatch_error rt audioBuffer (set_hasReceivedData s true) event
              Hopen Hpend Hty) as (Hrej & Hframes & _).
  split; [|split].
  - rewrite (process_audio_relays req a _ Ha Hne). fold audioBuffer.
    rewrite run_app, run_cons, <- Hs, Hstep.
    eexists. rewrite run_settled by (rewrite Hrej; reflexivity).
    rewrite Hrej. reflexivity.
  - rewrite (process_audio_relays req a _ Ha Hne). fold audioBuffer.
    cbn [snd]. eexists. split; [reflexivity|].
    rewrite run_app, <- Hs. cbn [run fold_left]. rewrite Hstep. exact Hframes.
  - intros m Hm Hnonempty. exists "OpenAI API Error: ", "".
    rewrite append_nil_r. f_equal.
    unfold or_else. rewrite Hm.
    apply truthy_nonempty in Hnonempty. rewrite Hnonempty.
    cbn [or_literal]. rewrite Hnonempty. reflexivity.
Qed.

(** C1, as the code has it.  Once the socket has opened, the timer is
    cleared: however long the service then stays silent, the promise stays
    pending and the request is never answered. *)
Theorem silent_open_session_never_settles
    (audioBuffer : Buffer) (sampleRate : Z) (n : nat) :
  connectionTimeout (deliver rt audioBuffer connect Opened) = false /\
  promise (processAudioWithOpenAI rt audioBuffer sampleRate
             (Opened :: repeat TimerElapsed n)) = Pending /\
  respond (promise (processAudioWithOpenAI rt audioBuffer sampleRate
                      (Opened :: repeat TimerElapsed n))) = None.
Proof.
  assert (Hp : promise (processAudioWithOpenAI rt audioBuffer sampleRate
                          (Opened :: repeat TimerElapsed n)) = Pending).
  { unfold processAudioWithOpenAI. rewrite run_cons.
    rewrite run_quiet; [reflexivity | reflexivity |].
    induction n as [ | n IH]; [reflexivity | exact IH]. }
  rewrite Hp. repeat split.
Qed.

(** While the socket is still connecting the timer does its work. *)
Lemma connect_timeout_rejects (audioBuffer : Buffer) (sampleRate : Z)
    (later : list Occurrence) :
  respond (promise (processAudioWithOpenAI rt audioBuffer sampleRate
                      (TimerElapsed :: later)))
  = Some {| status := 500;
            body := error_body "Erro interno ao processar áudio"
                      (Some "Timeout: OpenAI Realtime API connection or initial data timeout") |}.
Proof.
  unfold processAudioWithOpenAI. rewrite run_cons.
  rewrite run_settled by reflexivity. reflexivity.
Qed.

(** A session that has opened and hears nothing but the timer and the
    close of the socket stays pending. *)
Lemma quiet_open_session_pending (audioBuffer : Buffer) (sampleRate : Z)
    (trace : list Occurrence) :
  forallb quiet trace = true ->
  promise (processAudioWithOpenAI rt audioBuffer sampleRate (Opened :: trace))
  = Pending.
Proof.
  intros Hq. unfold processAudioWithOpenAI. rewrite run_cons.
  rewrite run_quiet; [reflexivity | reflexivity | exact Hq].
Qed.

End Route.

(* ================================================================== *)
(** * The earlier server                                                *)
(* ================================================================== *)

Section LegacyFacts.
Import Relay.

Variable rt : Runtime.
Variable audioBuffer : Buffer.
Variable parseError : string.

Local Abbreviation ldeliver := (Legacy.deliver rt audioBuffer parseError).
Local Abbreviation lrun := (Legacy.run rt audioBuffer parseError).

Lemma legacy_run_cons (s : Legacy.Session) (o : Occurrence)
    (rest : list Occurrence) :
  lrun s (o :: rest) = lrun (ldeliver s o) rest.
Proof. reflexivity. Qed.

Lemma legacy_deliver_quiet (s : Legacy.Session) (o : Occurrence) :
  Legacy.timeout s = false -> quiet o = true ->
  Legacy.timeout (ldeliver s o) = false /\
  Legacy.promise (ldeliver s o) = Legacy.promise s.
Proof.
  intros Htimer Hq.
  destruct o as [ | parsed | err | code why | ]; try discriminate;
    cbn [Legacy.deliver].
  - destruct (Legacy.readyState s); cbn; auto.
  - destruct (Legacy.readyState s); cbn; auto.
  - rewrite Htimer. auto.
Qed.

Lemma legacy_run_quiet (trace : list Occurrence) :
  forall s : Legacy.Session,
    Legacy.timeout s = false -> forallb quiet trace = true ->
    Legacy.promise (lrun s trace) = Legacy.promise s.
Proof.
  induction trace as [ | o rest IH]; intros s Htimer Hq; [reflexivity|].
  cbn [forallb] in Hq. apply andb_prop in Hq as [Ho Hrest].
  destruct (legacy_deliver_quiet s o Htimer Ho) as [Ht Hp].
  rewrite legacy_run_cons, IH, Hp; auto.
Qed.

(** The earlier timer looks at open sockets only: when it elapses on a
    socket that is still connecting it is spent, and a service that then
    stays silent leaves the promise pending. *)
Lemma legacy_connect_timeout_is_lost (sampleRate : Z) (trace : list Occurrence) :
  forallb quiet trace = true ->
  Legacy.promise
    (Legacy.processAudioWithOpenAI rt parseError audioBuffer sampleRate
       (TimerElapsed :: trace))
  = Pending.
Proof.
  intros Hq. unfold Legacy.processAudioWithOpenAI.
  rewrite legacy_run_cons, legacy_run_quiet; [reflexivity | reflexivity | exact Hq].
Qed.

(** On an open and silent socket the earlier timer rejects. *)
Lemma legacy_silent_open_session_times_out (sampleRate : Z) :
  Legacy.respond
    (Legacy.promise
       (Legacy.processAudioWithOpenAI rt parseError audioBuffer sampleRate
          [Opened; TimerElapsed]))
  = Some {| status := 500;
            body := error_body "Erro ao processar áudio"
                      (Some "Timeout na conexão com OpenAI") |}.
Proof. reflexivity. Qed.

Lemma legacy_deliver_sent (s : Legacy.Session) (o : Occurrence) :
  (Legacy.isSessionCreated s = false -> Legacy.sent s = []) ->
  (Legacy.sent s = [] \/
   Legacy.sent s = [session_update "alloy" INSTRUCTIONS;
                    conversation_item_create (Buffer_toString_base64 rt audioBuffer);
                    response_create ["audio"; "text"]]) ->
  (Legacy.isSessionCreated (ldeliver s o) = false -> Legacy.sent (ldeliver s o) = []) /\
  (Legacy.sent (ldeliver s o) = [] \/
   Legacy.sent (ldeliver s o)
     = [session_update "alloy" INSTRUCTIONS;
        conversation_item_create (Buffer_toString_base64 rt audioBuffer);
        response_create ["audio"; "text"]]).
Proof.
  intros Hflag Hsent.
  destruct s as [rs snt cf chunks created tm p].
  cbn [Legacy.sent Legacy.isSessionCreated] in Hflag, Hsent.
  destruct o as [ | [event | ] | err | code why | ]; cbn [Legacy.deliver Legacy.readyState].
  - destruct rs; cbn; auto.
  - destruct rs; cbn [Legacy.sent Legacy.isSessionCreated]; auto;
      unfold Legacy.incoming, Legacy.dispatch;
      cbn [Legacy.isSessionCreated];
      destruct (type event =? "session.created")%string;
      destruct (type event =? "response.audio.delta")%string;
      destruct (type event =? "response.done")%string;
      destruct created; cbn; auto;
      rewrite (Hflag eq_refl); cbn;
      solve [auto | split; [discriminate | auto]].
  - destruct rs; cbn; auto.
  - cbn. auto.
  - destruct rs; cbn; auto.
  - destruct tm; cbn [Legacy.timeout]; [|auto]. destruct rs; cbn; auto.
Qed.

(** The earlier route answers 400 in the same two cases. *)
Lemma legacy_bad_request (req : RequestBody) (upstream : list Occurrence) :
  audio req = None \/ audio req = Some "" ->
  Legacy.process_audio rt parseError req upstream
  = (Some {| status := 400;
             body := error_body "Dados de áudio não fornecidos" None |}, []).
Proof.
  intros [Hnone | Hempty]; unfold Legacy.process_audio.
  - rewrite Hnone. reflexivity.
  - rewrite Hempty. reflexivity.
Qed.

(** The earlier server, too, writes its three configuring messages at
    most once, in the same order. *)
Lemma legacy_configuring_messages_at_most_once (trace : list Occurrence) :
  forall s : Legacy.Session,
    (Legacy.isSessionCreated s = false -> Legacy.sent s = []) ->
    (Legacy.sent s = [] \/
     Legacy.sent s = [session_update "alloy" INSTRUCTIONS;
                      conversation_item_create (Buffer_toString_base64 rt audioBuffer);
                      response_create ["audio"; "text"]]) ->
    Legacy.sent (lrun s trace) = [] \/
    Legacy.sent (lrun s trace)
      = [session_update "alloy" INSTRUCTIONS;
         conversation_item_create (Buffer_toString_base64 rt audioBuffer);
         response_create ["audio"; "text"]].
Proof.
  induction trace as [ | o rest IH]; intros s Hflag Hsent; [exact Hsent|].
  rewrite legacy_run_cons.
  destruct (legacy_deliver_sent s o Hflag Hsent) as [Hflag' Hsent'].
  apply IH; assumption.
Qed.

End LegacyFacts.

(* ================================================================== *)
(** * Scenarios                                                         *)
(* ================================================================== *)

Section Scenarios.
Import Relay Samples.

Lemma settlement_is_final_witness :
  promise (run rt [] (run rt [] connect [Opened; Message (Some response_done)])
             [TimerElapsed; Errored "reset"; Message (Some (error_event "late"));
              Closed 1006 ""])
    = promise (run rt [] connect [Opened; Message (Some response_done)]) /\
  respond (promise (run rt [] (run rt [] connect [Opened; Message (Some response_done)])
                      [TimerElapsed; Errored "reset";
                       Message (Some (error_event "late")); Closed 1006 ""]))
    = respond (promise (run rt [] connect [Opened; Message (Some response_done)])).
Proof.
  apply (settlement_is_final rt []
           (run rt [] connect [Opened; Message (Some response_done)])
           [TimerElapsed; Errored "reset"; Message (Some (error_event "late"));
            Closed 1006 ""]).
  reflexivity.
Defined.

(** session.created, the deltas "AAA" and "BBB", then response.done: 200
    with "AAABBB". *)
Lemma relay_concatenates_fragments_witness :
  exists session : Session,
    process_audio rt (request "UklGRg==")
      (Opened :: map (fun e => Message (Some e))
                     ([session_created; audio_delta "AAA"; audio_delta "BBB"]
                      ++ [response_done]))
    = (Some {| status := 200; body := audio_body "AAABBB" |}, [session]) /\
    promise session = Resolved "AAABBB".
Proof.
  apply (relay_concatenates_fragments rt (request "UklGRg==") "UklGRg=="
           [session_created; audio_delta "AAA"; audio_delta "BBB"] response_done).
  - reflexivity.
  - discriminate.
  - reflexivity.
  - reflexivity.
Defined.

(** An [error] message that says "rate_limited". *)
Lemma upstream_error_is_surfaced_witness :
  (exists s' : Session,
     process_audio rt (request "UklGRg==")
       ([Opened; Message (Some session_created)]
        ++ Message (Some (error_event "rate_limited"))
           :: [Closed 1011 "API Error"; TimerElapsed])
     = (Some {| status := 500;
                body := error_body "Erro interno ao processar áudio"
                          (Some "OpenAI API Error: rate_limited") |},
        [s'])) /\
  (exists s1 : Session,
     snd (process_audio rt (request "UklGRg==")
            ([Opened; Message (Some session_created)]
             ++ [Message (Some (error_event "rate_limited"))])) = [s1] /\
     closeFrames s1 = [] ++ [(1011, "API Error")]) /\
  (forall m : string,
     Some "rate_limited" = Some m -> m <> "" ->
     contains "OpenAI API Error: rate_limited" m).
Proof.
  apply (upstream_error_is_surfaced rt (request "UklGRg==")
           [Opened; Message (Some session_created)]
           [Closed 1011 "API Error"; TimerElapsed]
           (error_event "rate_limited")
           (run rt (codes "UklGRg==") connect
              [Opened; Message (Some session_created)])).
  - reflexivity.
  - reflexivity.
  - left. reflexivity.
Defined.

(** Two [session.created] messages: the three configuring messages are
    written once. *)
Example duplicate_session_created :
  map client_event_type
      (sent (processAudioWithOpenAI rt [] 16000
               [Opened; Message (Some session_created);
                Message (Some session_created)]))
  = ["session.update"; "conversation.item.create"; "response.create"].
Proof. reflexivity. Qed.

(** The socket opens, the service says nothing, the 30 s pass, the socket
    closes: the request has no answer. *)
Example silent_open_session :
  process_audio rt (request "UklGRg==") [Opened; TimerElapsed; Closed 1006 ""]
  = (None,
     [{| readyState := CLOSED; sent := []; closeFrames := [];
         responseAudioChunks := []; isSessionConfigured := false;
         hasReceivedData := false; connectionTimeout := false;
         promise := Pending |}]).
Proof. reflexivity. Qed.

(** The socket never opens and the 30 s pass: 500 with the timeout text. *)
Example connect_timeout :
  fst (process_audio rt (request "UklGRg==") [TimerElapsed])
  = Some {| status := 500;
            body := error_body "Erro interno ao processar áudio"
                      (Some "Timeout: OpenAI Realtime API connection or initial data timeout") |}.
Proof. reflexivity. Qed.

(** The earlier server: the same deltas, the same answer. *)
Example legacy_concatenates_fragments :
  fst (Legacy.process_audio rt "Unexpected token" (request "UklGRg==")
         [Opened; Message (Some session_created);
          Message (Some (audio_delta "AAA")); Message (Some (audio_delta "BBB"));
          Message (Some response_done)])
  = Some {| status := 200; body := audio_body "AAABBB" |}.
Proof. reflexivity. Qed.

(** The earlier server has no case for [error] messages. *)
Example legacy_ignores_error_events :
  fst (Legacy.process_audio rt "Unexpected token" (request "UklGRg==")
         [Opened; Message (Some (error_event "rate_limited"))])
  = None.
Proof. reflexivity. Qed.

End Scenarios.

(* ================================================================== *)
(** * More on the segmenter and the PCM conversion                      *)
(* ================================================================== *)

Section SegmenterRuns.
Import JsNum Client.

(** X1. [concatenateFloat32Arrays] returns the arrays laid end to end in
    order: no slot of the zero-filled result is left, and its length is
    the sum of the lengths. *)
Theorem concatenateFloat32Arrays_lays_end_to_end (arrays : list Float32Array) :
  concatenateFloat32Arrays arrays = concat arrays /\
  length (concatenateFloat32Arrays arrays) = list_sum (map (@length number) arrays) /\
  forall more : list Float32Array,
    concatenateFloat32Arrays (arrays ++ more)
    = concatenateFloat32Arrays arrays ++ concatenateFloat32Arrays more.
Proof.
  split; [apply concatenateFloat32Arrays_concat|].
  split.
  - rewrite concatenateFloat32Arrays_concat. apply concat_length_sum.
  - intros more. rewrite !concatenateFloat32Arrays_concat. apply concat_app.
Qed.

Lemma concat_nonempty (arrays : list Float32Array) :
  arrays <> [] -> Forall (fun a => (0 < length a)%nat) arrays ->
  (0 < length (concat arrays))%nat.
Proof.
  intros Hne Hall. destruct arrays as [ | a rest]; [contradiction|].
  inversion Hall as [ | ? ? Ha _]; subst.
  cbn [concat]. rewrite length_app. lia.
Qed.

(** What any run of frames does to a segmenter that listens and is not
    busy: it buffers the frames above the threshold, in order, until a
    frame makes it post them; from then on it is busy. *)
Lemma feed_any (frames : list Frame) :
  forall st : State,
    isListening st = true -> isSpeaking st = false ->
    Forall (fun a => (0 < length a)%nat) (recordingBuffer st) ->
    (isSpeaking (feed st frames) = false /\
     posted (feed st frames) = posted st /\
     recordingBuffer (feed st frames)
     = recordingBuffer st
       ++ map fst (filter (fun f => above_threshold (fst f)) frames))
    \/
    (exists k : nat,
       (k < length frames)%nat /\
       isSpeaking (feed st frames) = true /\
       recordingBuffer (feed st frames) = [] /\
       posted (feed st frames)
       = posted st
         ++ [concat (recordingBuffer st
                     ++ map fst (filter (fun f => above_threshold (fst f))
                                        (firstn k frames)))] /\
       (0 < length (concat (recordingBuffer st
                     ++ map fst (filter (fun f => above_threshold (fst f))
                                        (firstn k frames)))))%nat).
Proof.
  induction frames as [ | f rest IH]; intros st Hon Hidle Hbuf.
  - left. cbn. rewrite app_nil_r. auto.
  - cbn [feed fold_left]. fold (feed (onaudioprocess st (fst f) (snd f)) rest).
    destruct (above_threshold (fst f)) eqn:Hf.
    + (* a frame of speech *)
      destruct (feed_speech [f] st Hidle Hon) as (Hb1 & _ & Hs1 & Hl1 & Hp1);
        [repeat constructor; exact Hf|].
      cbn [feed fold_left map] in Hb1, Hs1, Hl1, Hp1.
      set (st1 := onaudioprocess st (fst f) (snd f)) in *.
      assert (Hbuf1 : Forall (fun a => (0 < length a)%nat) (recordingBuffer st1)).
      { rewrite Hb1. apply Forall_app. split; [exact Hbuf|].
        repeat constructor. apply above_threshold_nonempty. exact Hf. }
      destruct (IH st1 Hl1 Hs1 Hbuf1) as [(Hs & Hp & Hb) | (k & Hk & Hs & Hb & Hp & Hlen)].
      * left. cbn [filter]. rewrite Hf. cbn [map].
        rewrite Hs, Hp, Hb, Hb1, Hp1, <- app_assoc. auto.
      * right. exists (S k). cbn [length firstn filter]. rewrite Hf. cbn [map].
        rewrite Hb1, <- app_assoc in Hp, Hlen. cbn [app] in Hp, Hlen.
        rewrite Hs, Hb, Hp, Hp1. repeat split; [lia | exact Hlen].
    + (* a frame that is not speech *)
      destruct ((0 <? length (recordingBuffer st))%nat
                && (snd f - lastSpeechTime st >? SPEECH_TIMEOUT_MS)) eqn:Hemit.
      * right. exists 0%nat. cbn [firstn filter map length]. rewrite app_nil_r.
        apply andb_prop in Hemit as [Hnonempty Hlate].
        assert (Hlen : (0 < length (concat (recordingBuffer st)))%nat).
        { apply concat_nonempty; [|exact Hbuf].
          apply Nat.ltb_lt in Hnonempty.
          destruct (recordingBuffer st); [cbn in Hnonempty; lia | discriminate]. }
        assert (Hstep : onaudioprocess st (fst f) (snd f)
                        = sendAudioToServer (set_recordingBuffer st [])
                            (concat (recordingBuffer st))).
        { unfold onaudioprocess. rewrite Hidle, Hon, Hf, Hnonempty, Hlate.
          cbn [orb negb andb]. rewrite concatenateFloat32Arrays_concat.
          replace (0 <? length (concat (recordingBuffer st)))%nat with true
            by (symmetry; apply Nat.ltb_lt; exact Hlen).
          reflexivity. }
        rewrite Hstep. unfold sendAudioToServer.
        cbn [set_recordingBuffer isSpeaking]. rewrite Hidle.
        rewrite feed_busy by reflexivity. cbn.
        repeat split; [lia | exact Hlen].
      * assert (Hstep : onaudioprocess st (fst f) (snd f) = st).
        { unfold onaudioprocess. rewrite Hidle, Hon, Hf, Hemit. reflexivity. }
        rewrite Hstep.
        destruct (IH st Hon Hidle Hbuf) as [(Hs & Hp & Hb) | (k & Hk & Hs & Hb & Hp & Hlen)].
        -- left. cbn [filter]. rewrite Hf. auto.
        -- right. exists (S k). cbn [length firstn filter]. rewrite Hf.
           repeat split; [lia | exact Hs | exact Hb | exact Hp | exact Hlen].
Qed.

(** X4. Whatever frames arrive, a segmenter that starts with an empty buffer
    posts at most one utterance before the round trip ends; it is never
    empty and it is the frames above the threshold received before the
    frame that released it, in order and nothing else. *)
Theorem at_most_one_utterance_of_speech_only (st : State) (frames : list Frame) :
  isListening st = true -> isSpeaking st = false -> recordingBuffer st = [] ->
  (posted (feed st frames) = posted st /\
   recordingBuffer (feed st frames)
   = map fst (filter (fun f => above_threshold (fst f)) frames))
  \/
  (exists k : nat,
     (k < length frames)%nat /\
     posted (feed st frames)
     = posted st
       ++ [concat (map fst (filter (fun f => above_threshold (fst f))
                                   (firstn k frames)))] /\
     (0 < length (concat (map fst (filter (fun f => above_threshold (fst f))
                                          (firstn k frames)))))%nat /\
     recordingBuffer (feed st frames) = [] /\
     isSpeaking (feed st frames) = true).
Proof.
  intros Hon Hidle Hempty.
  destruct (feed_any frames st Hon Hidle) as [(Hs & Hp & Hb) | (k & Hk & Hs & Hb & Hp & Hlen)].
  - rewrite Hempty. constructor.
  - left. rewrite Hp, Hb, Hempty. auto.
  - right. exists k. rewrite Hempty in Hp, Hlen. cbn [app] in Hp, Hlen. auto.
Qed.

(** X5. A pause shorter than the timeout does not split an utterance: speech,
    silence that never outlasts SPEECH_TIMEOUT_MS, more speech and then a
    long silence give one utterance, the two runs of speech joined, without
    the pause. *)
Theorem short_pause_does_not_split
    (st : State) (first pause second tail : list Frame) :
  isListening st = true -> isSpeaking st = false -> recordingBuffer st = [] ->
  first <> [] -> second <> [] ->
  Forall (fun f => above_threshold (fst f) = true) first ->
  Forall (fun f => above_threshold (fst f) = false) pause ->
  Forall (fun f => snd f - last_time first 0 <= SPEECH_TIMEOUT_MS) pause ->
  Forall (fun f => above_threshold (fst f) = true) second ->
  Forall (fun f => above_threshold (fst f) = false) tail ->
  Exists (fun f => snd f - last_time second 0 > SPEECH_TIMEOUT_MS) tail ->
  posted (feed st (first ++ pause ++ second ++ tail))
  = posted st ++ [concat (map fst (first ++ second))].
Proof.
  intros Hon Hidle Hempty Hne1 Hne2 Hloud1 Hsil Hshort Hloud2 Hsil2 Hlate.
  rewrite !feed_app.
  destruct (feed_speech first st Hidle Hon Hloud1) as (Hb1 & Ht1 & Hs1 & Hl1 & Hp1).
  assert (Hlast1 : lastSpeechTime (feed st first) = last_time first 0).
  { rewrite Ht1. destruct first as [ | f rest]; [contradiction|].
    unfold last_time. cbn [map]. rewrite !last_cons_default. reflexivity. }
  rewrite (feed_short_silence pause (feed st first) Hsil)
    by (rewrite Hlast1; exact Hshort).
  destruct (feed_speech second (feed st first) Hs1 Hl1 Hloud2)
    as (Hb2 & Ht2 & Hs2 & Hl2 & Hp2).
  assert (Hlast2 : lastSpeechTime (feed (feed st first) second) = last_time second 0).
  { rewrite Ht2. destruct second as [ | f rest]; [contradiction|].
    unfold last_time. cbn [map]. rewrite !last_cons_default. reflexivity. }
  rewrite Hb1, Hempty in Hb2. cbn [app] in Hb2.
  destruct (feed_trailing_silence tail (feed (feed st first) second) Hs2 Hl2)
    as (Hp3 & _ & _).
  - rewrite Hb2, <- map_app. apply speech_frames_nonempty.
    + destruct first; [contradiction | discriminate].
    + apply Forall_app. split; assumption.
  - exact Hsil2.
  - rewrite Hlast2. exact Hlate.
  - rewrite Hp3, Hb2, Hp2, Hp1, map_app. reflexivity.
Qed.

End SegmenterRuns.

Section PCMShape.
Import JsNum Client.

Lemma compare_one_Eq (x : number) :
  SFcompare one x = Some Eq -> x = one.
Proof.
  unfold one. destruct x as [s | s | | s m e]; cbn [SFcompare];
    try destruct s; try discriminate.
  destruct (Z.compare_spec (-52) e) as [He | He | He]; try discriminate.
  destruct (Pos.compare_cont Eq 4503599627370496 m) eqn:Hc; try discriminate.
  intros _. apply Pos.compare_eq in Hc. subst. reflexivity.
Qed.

Lemma compare_minus_one_Eq (x : number) :
  SFcompare x minus_one = Some Eq -> x = minus_one.
Proof.
  unfold minus_one. destruct x as [s | s | | s m e]; cbn [SFcompare];
    try destruct s; try discriminate.
  destruct (Z.compare_spec e (-52)) as [He | He | He]; try discriminate.
  destruct (Pos.compare_cont Eq m 4503599627370496) eqn:Hc; try discriminate.
  intros _. apply Pos.compare_eq in Hc. subst. reflexivity.
Qed.

(** X2. Full scale.  Every sample of at least 1, +Infinity included, is
    stored as 32767, and every sample of at most -1, -Infinity included,
    as -32768. *)
Theorem float32To16BitPCM_saturates (x : number) :
  (SFleb one x = true -> ToInt16 (scale (clamp x)) = 32767) /\
  (SFleb x minus_one = true -> ToInt16 (scale (clamp x)) = -32768).
Proof.
  split; unfold SFleb; intros H.
  - assert (Hmin : Math_min one x = one).
    { unfold Math_min.
      destruct (SFcompare one x) as [[ | | ] | ] eqn:Hc; try discriminate.
      - apply compare_one_Eq in Hc. subst. reflexivity.
      - reflexivity. }
    unfold clamp. rewrite Hmin. vm_compute. reflexivity.
  - destruct (SFcompare x minus_one) as [[ | | ] | ] eqn:Hc; try discriminate.
    + apply compare_minus_one_Eq in Hc. subst. vm_compute. reflexivity.
    + (* x < -1 *)
      assert (Hone : SFcompare one x = Some Gt).
      { unfold one, minus_one in *.
        destruct x as [s | s | | s m e]; cbn [SFcompare] in *;
          try destruct s; try discriminate; reflexivity. }
      pose proof (SFcompare_Lt_swap _ _ Hc) as Hswap.
      unfold clamp, Math_min. rewrite Hone.
      unfold Math_max. rewrite Hswap. vm_compute. reflexivity.
Qed.

Lemma clamp_keeps_sign (x : number) :
  lt (clamp x) pzero = lt x pzero.
Proof.
  unfold clamp, Math_min, Math_max, lt, SFltb, one, minus_one, pzero.
  destruct x as [s | s | | s m e]; try destruct s; cbn [SFcompare];
    try reflexivity.
  - cbn [is_neg_zero is_pos_zero].
    destruct (-52 ?= e); cbn [CompOpp SFcompare]; try reflexivity.
    destruct (Pos.compare_cont Eq 4503599627370496 m); cbn [CompOpp SFcompare];
      reflexivity.
  - destruct (-52 ?= e); cbn [SFcompare is_neg_zero is_pos_zero]; try reflexivity.
    destruct (Pos.compare_cont Eq 4503599627370496 m);
      cbn [SFcompare is_neg_zero is_pos_zero]; reflexivity.
Qed.

Lemma scale_signed_range (s : number) :
  s = S754_nan \/ magnitude_le 1 s ->
  (lt s pzero = true -> -32768 <= truncate (scale s) <= 0) /\
  (lt s pzero = false -> 0 <= truncate (scale s) <= 32767).
Proof.
  intros [-> | Hs]; [cbn; split; intros; [discriminate | lia]|].
  destruct s as [sg | sg | | sg m e]; cbn [magnitude_le] in Hs; try contradiction.
  - destruct sg; cbn; split; intros; try discriminate; lia.
  - destruct sg; unfold scale, lt, pzero, SFltb; cbn [SFcompare];
      unfold mul, x8000, x7FFF; cbn [SFmul xorb].
    + assert (Hb : mag_bound 32768 (Zpos (m * 4503599627370496)) (e + -37))
        by (apply (scaled_mantissa_bound 32768 _ m 37 e); [lia | reflexivity | exact Hs]).
      destruct (binary_round_aux_bound 32768 true _ _ ltac:(cbn; lia) Hb) as [Hmag Hsg].
      pose proof (truncate_bound 32768 _ ltac:(lia) Hmag).
      pose proof (proj1 (truncate_sign _) Hsg).
      split; intros; [lia | discriminate].
    + assert (Hb : mag_bound 32767 (Zpos (m * 9006924376834048)) (e + -38))
        by (apply (scaled_mantissa_bound 32767 _ m 38 e); [lia | reflexivity | exact Hs]).
      destruct (binary_round_aux_bound 32767 false _ _ ltac:(cbn; lia) Hb) as [Hmag Hsg].
      pose proof (truncate_bound 32767 _ ltac:(lia) Hmag).
      pose proof (proj2 (truncate_sign _) Hsg).
      split; intros; [discriminate | lia].
Qed.

(** X3. The conversion keeps the sign: a sample below zero is stored as a
    value in [-32768, 0], any other sample (zero, positive or NaN) as a
    value in [0, 32767]. *)
Theorem float32To16BitPCM_keeps_sign (x : number) :
  valid x = true ->
  (lt x pzero = true -> -32768 <= ToInt16 (scale (clamp x)) <= 0) /\
  (lt x pzero = false -> 0 <= ToInt16 (scale (clamp x)) <= 32767).
Proof.
  intros Hv.
  destruct (sample_in_range x Hv) as [_ Hw]. rewrite Hw.
  rewrite <- (clamp_keeps_sign x).
  apply scale_signed_range. apply clamp_range. exact Hv.
Qed.

End PCMShape.

(* ================================================================== *)
(** * The page: round trips, stop and start                              *)
(* ================================================================== *)

Section PageFacts.
Import JsNum Client Page.

Lemma handle_all_app (p : Page.State) (xs ys : list Event) :
  handle_all p (xs ++ ys) = handle_all (handle_all p xs) ys.
Proof. unfold handle_all. apply fold_left_app. Qed.

(** Frames alone act on the segmenter alone. *)
Lemma handle_all_frames (frames : list Frame) :
  forall p : Page.State,
    handle_all p (map (fun f => AudioProcess (fst f) (snd f)) frames)
    = with_seg p (feed (seg p) frames).
Proof.
  induction frames as [ | f rest IH]; intros p.
  - destruct p; reflexivity.
  - cbn [map handle_all fold_left]. fold (handle_all (handle p (AudioProcess (fst f) (snd f)))
                                            (map (fun f => AudioProcess (fst f) (snd f)) rest)).
    rewrite IH. cbn [handle with_seg seg mediaStream starting played feed fold_left].
    reflexivity.
Qed.

Lemma backToListening_idle (st : Client.State) :
  isSpeaking (backToListening st) = false /\
  posted (backToListening st) = posted st /\
  recordingBuffer (backToListening st) = recordingBuffer st.
Proof.
  unfold backToListening. cbn [isListening set_isSpeaking].
  destruct (isListening st); cbn; auto.
Qed.

Lemma communicationError_idle (st : Client.State) (message : string) :
  isSpeaking (communicationError st message) = false /\
  posted (communicationError st message) = posted st /\
  recordingBuffer (communicationError st message) = recordingBuffer st /\
  statusText (communicationError st message)
  = if isListening st then "Ouvindo..."
    else String.append "Erro de comunicação: " message.
Proof.
  unfold communicationError. cbn [isListening set_isSpeaking updateStatus].
  destruct (isListening st); cbn; auto.
Qed.

(** X6. Every round trip ends with the page free again.  When [fetch] has
    ended, either the busy flag is down and nothing is played, or exactly
    one non-empty response has been handed to [playAudioResponse] and each
    of the three ways its playback can end takes the flag down. *)
Theorem round_trip_always_frees_the_page (p : Page.State) (outcome : FetchOutcome) :
  (isSpeaking (seg (fetchSettled p outcome)) = false /\
   played (fetchSettled p outcome) = played p)
  \/
  (exists audio : string,
     audio <> "" /\
     played (fetchSettled p outcome) = played p ++ [audio] /\
     statusText (seg (fetchSettled p outcome)) = "Falando..." /\
     isSpeaking (seg (onended (fetchSettled p outcome))) = false /\
     isSpeaking (seg (onerror (fetchSettled p outcome))) = false /\
     forall message : string,
       isSpeaking (seg (playbackRejected (fetchSettled p outcome) message)) = false).
Proof.
  unfold fetchSettled.
  destruct (thrown outcome) as [message | ] eqn:Hthrown.
  - left. cbn [with_seg seg played].
    destruct (communicationError_idle (seg p) message) as (H & _). auto.
  - destruct outcome as [m | ok status [audio error details | syntaxError]];
      cbn [thrown] in Hthrown; try discriminate.
    + destruct ok; [|discriminate].
      destruct audio as [a | ]; [|discriminate].
      cbn [Page.truthy] in Hthrown.
      destruct (String.eqb_spec a "") as [-> | Hne]; [discriminate|].
      right. exists a. split; [exact Hne|].
      unfold onended, onerror, playbackRejected, playAudioResponse.
      cbn [with_seg seg played updateStatus statusText].
      repeat split; intros; apply backToListening_idle.
    + destruct ok; discriminate.
Qed.

(** X7. Nothing but the end of a round trip takes the busy flag down: frames,
    stop, start, the microphone and the wake lock leave a busy page busy,
    and nothing is posted or played meanwhile. *)
Theorem busy_until_round_trip_ends (events : list Event) :
  forall p : Page.State,
    isSpeaking (seg p) = true ->
    forallb (fun e => negb (ends_round_trip e)) events = true ->
    isSpeaking (seg (handle_all p events)) = true /\
    posted (seg (handle_all p events)) = posted (seg p) /\
    played (handle_all p events) = played p.
Proof.
  induction events as [ | e rest IH]; intros p Hbusy Hquiet; [auto|].
  cbn [forallb] in Hquiet. apply andb_prop in Hquiet as [He Hrest].
  assert (Hstep : isSpeaking (seg (handle p e)) = true /\
                  posted (seg (handle p e)) = posted (seg p) /\
                  played (handle p e) = played p).
  { destruct e as [inputData currentTime | outcome | | | m | | | wl | m | | ];
      try discriminate; cbn [handle].
    - cbn [with_seg seg played]. unfold onaudioprocess. rewrite Hbusy. auto.
    - unfold stopListening. destruct (_ && _); cbn; auto.
    - unfold startListening. destruct (isListening (seg p)); cbn; auto.
    - destruct (starting p); [auto|]. unfold microphoneGranted.
      destruct wl; cbn; auto.
    - destruct (starting p); [auto|]. unfold microphoneDenied, stopListening.
      cbn [seg mediaStream isListening updateStatus].
      destruct (_ && _); cbn; auto.
    - cbn. auto.
    - cbn. auto. }
  destruct Hstep as (Hb & Hp & Hpl).
  cbn [handle_all fold_left]. fold (handle_all (handle p e) rest).
  destruct (IH (handle p e) Hb Hrest) as (Hb' & Hp' & Hpl').
  rewrite Hb', Hp', Hpl', Hp, Hpl. auto.
Qed.

(** X8. Speech that is being captured when the user stops is thrown away:
    after stop and a new start, silence of any length posts nothing. *)
Theorem stop_discards_the_partial_utterance
    (p : Page.State) (speech silence : list Frame) (wakeLockSupported : bool) :
  isListening (seg p) = true -> isSpeaking (seg p) = false ->
  Forall (fun f => above_threshold (fst f) = true) speech ->
  Forall (fun f => above_threshold (fst f) = false) silence ->
  posted (seg (handle_all p
                 (map (fun f => AudioProcess (fst f) (snd f)) speech
                  ++ [StopClicked; StartClicked; MicrophoneGranted wakeLockSupported]
                  ++ map (fun f => AudioProcess (fst f) (snd f)) silence)))
  = posted (seg p) /\
  recordingBuffer (seg (handle_all p
                 (map (fun f => AudioProcess (fst f) (snd f)) speech
                  ++ [StopClicked; StartClicked; MicrophoneGranted wakeLockSupported]
                  ++ map (fun f => AudioProcess (fst f) (snd f)) silence)))
  = [].
Proof.
  intros Hon Hidle Hloud Hsil.
  rewrite !handle_all_app, !handle_all_frames.
  destruct (feed_speech speech (seg p) Hidle Hon Hloud) as (_ & _ & _ & Hl & Hp).
  set (st := feed (seg p) speech) in *.
  cbn [handle_all fold_left handle]. unfold stopListening.
  cbn [with_seg seg mediaStream]. rewrite Hl. cbn [negb andb].
  unfold startListening. cbn [seg isListening updateStatus set_recordingBuffer set_isListening].
  cbn [handle starting microphoneGranted seg].
  rewrite feed_silence_idle; [ | destruct wakeLockSupported; reflexivity | exact Hsil].
  destruct wakeLockSupported; cbn; auto.
Qed.

End PageFacts.

Section BackendToPage.
Import Relay Page.

(** X9. What the page makes of each response the backend can send.  A 200
    with non-empty audio is played.  A 200 whose audio is empty (the
    exchange resolved without fragments) is reported as a response without
    audio.  A 500 or a 400 is reported with its status and its [error]
    text: the [details] of a 500, which carry the upstream message, are
    never part of what the page reports. *)
Theorem page_reaction_to_backend
    (rt : Runtime) (req : RequestBody) (upstream : list Occurrence)
    (r : Response) (sessions : list Session) :
  process_audio rt req upstream = (Some r, sessions) ->
  (exists a : string,
     a <> "" /\ r = {| status := 200; body := audio_body a |} /\
     thrown (reply_of r) = None /\
     forall p : Page.State, fetchSettled p (reply_of r) = playAudioResponse p a)
  \/ (r = {| status := 200; body := audio_body "" |} /\
      thrown (reply_of r) = Some "Resposta do servidor não contém áudio.")
  \/ (exists details : string,
        r = {| status := 500;
               body := error_body "Erro interno ao processar áudio" (Some details) |} /\
        thrown (reply_of r)
        = Some "Server error: 500 - Erro interno ao processar áudio")
  \/ (r = bad_request /\
      thrown (reply_of r)
      = Some "Server error: 400 - Dados de áudio não fornecidos").
Proof.
  unfold process_audio, processAudioWithOpenAI. intros H.
  assert (Hcases : r = bad_request \/
                   exists p, respond p = Some r).
  { destruct (audio req) as [a | ].
    - destruct (negb (Relay.truthy (Some a))).
      + left. injection H as Hr _. symmetry. exact Hr.
      + right. injection H as Hr _. eexists. exact Hr.
    - left. injection H as Hr _. symmetry. exact Hr. }
  destruct Hcases as [-> | [p Hp]].
  - right. right. right. split; reflexivity.
  - destruct p as [ | a | m]; cbn [respond] in Hp; [discriminate | | ];
      injection Hp as <-.
    + destruct (String.eqb_spec a "") as [-> | Hne].
      * right. left. split; reflexivity.
      * left. exists a. split; [exact Hne|]. split; [reflexivity|].
        assert (Ht : thrown (reply_of {| status := 200; body := audio_body a |}) = None).
        { cbn. apply String.eqb_neq in Hne. rewrite Hne. reflexivity. }
        split; [exact Ht|]. intros pg. unfold fetchSettled. rewrite Ht. reflexivity.
    + right. right. left. exists m. split; reflexivity.
Qed.

End BackendToPage.

(* ================================================================== *)
(** * More on the relay                                                 *)
(* ================================================================== *)

Section RelayTraces.
Import Relay Trace.

Variable rt : Runtime.
Variable audioBuffer : Buffer.

Local Abbreviation deliver := (Relay.deliver rt audioBuffer).
Local Abbreviation run := (Relay.run rt audioBuffer).
Local Abbreviation dispatch := (Relay.dispatch rt audioBuffer).

(** ** The timer is armed only while the socket connects *)

Lemma dispatch_keeps_timer (s : Session) (event : ServerEvent) :
  connectionTimeout (dispatch s event) = connectionTimeout s.
Proof.
  destruct s as [rs snt cf chunks cfg recv tm p]. unfold Relay.dispatch.
  repeat match goal with
         | |- context [if ?c then _ else _] => destruct c
         | |- context [match delta event with _ => _ end] => destruct (delta event)
         end;
    destruct rs; reflexivity.
Qed.

Lemma deliver_timer_inv (s : Session) (o : Occurrence) :
  timer_inv s -> timer_inv (deliver s o).
Proof.
  unfold timer_inv. intros Hinv.
  destruct o as [ | parsed | err | code why | ]; cbn [Relay.deliver].
  - destruct (readyState s) eqn:Hrs; cbn; try discriminate;
      intros H; specialize (Hinv H); congruence.
  - assert (Hin : connectionTimeout (Relay.incoming rt audioBuffer s parsed)
                  = connectionTimeout s).
    { unfold Relay.incoming. destruct parsed as [event | ]; [|reflexivity].
      rewrite dispatch_keeps_timer. reflexivity. }
    destruct (readyState s) eqn:Hrs;
      intros H; try rewrite Hin in H; specialize (Hinv H); congruence.
  - cbn. discriminate.
  - destruct (readyState s) eqn:Hrs; cbn; try discriminate.
    intros H; specialize (Hinv H); congruence.
  - destruct (connectionTimeout s) eqn:Htm; [|rewrite Htm; discriminate].
    unfold on_timeout. destruct (_ || _).
    + cbn [connectionTimeout set_promise]. unfold ws_close.
      destruct (readyState (clearTimeout s)); cbn; discriminate.
    + cbn. discriminate.
Qed.

Lemma run_timer_inv (trace : list Occurrence) :
  forall s : Session, timer_inv s -> timer_inv (run s trace).
Proof.
  induction trace as [ | o rest IH]; intros s Hinv; [exact Hinv|].
  cbn [Relay.run fold_left]. apply IH. apply deliver_timer_inv. exact Hinv.
Qed.

Lemma connect_timer_inv : timer_inv connect.
Proof. intros _. reflexivity. Qed.

(** X10. Once the socket has left the connecting state, for whatever reason,
    the 30 s timer has no effect: what its callback would do to an open
    socket that has received nothing is never done. *)
Theorem timer_acts_only_while_connecting (trace : list Occurrence) :
  readyState (run connect trace) <> CONNECTING ->
  deliver (run connect trace) TimerElapsed = run connect trace.
Proof.
  intros Hrs. cbn [Relay.deliver].
  destruct (connectionTimeout (run connect trace)) eqn:Htm; [|reflexivity].
  exfalso. apply Hrs. apply (run_timer_inv trace connect connect_timer_inv). exact Htm.
Qed.

(** ** Close frames the relay itself writes *)

Lemma dispatch_close_inv (s : Session) (event : ServerEvent) :
  close_inv s -> close_inv (dispatch s event).
Proof.
  unfold close_inv. intros Hinv.
  destruct s as [rs snt cf chunks cfg recv tm p].
  cbn [closeFrames readyState] in Hinv. unfold Relay.dispatch.
  repeat match goal with
         | |- context [if ?c then _ else _] => destruct c
         | |- context [match delta event with _ => _ end] => destruct (delta event)
         end;
    destruct rs; cbn;
    destruct Hinv as [Hnone | [Hkind [Hrs | Hrs]]];
    try discriminate; try (rewrite Hnone); cbn; auto 6.
Qed.

Lemma deliver_close_inv (s : Session) (o : Occurrence) :
  timer_inv s -> close_inv s -> close_inv (deliver s o).
Proof.
  intros Htimer Hinv.
  destruct o as [ | parsed | err | code why | ]; cbn [Relay.deliver].
  - destruct s as [rs snt cf chunks cfg recv tm p]. unfold close_inv in *.
    cbn [closeFrames readyState] in *.
    destruct rs; cbn; try exact Hinv.
    destruct Hinv as [Hnone | [_ [H | H]]]; [auto | discriminate | discriminate].
  - assert (Hin : close_inv (Relay.incoming rt audioBuffer s parsed)).
    { unfold Relay.incoming. destruct parsed as [event | ].
      - apply dispatch_close_inv. exact Hinv.
      - exact Hinv. }
    destruct (readyState s); assumption.
  - exact Hinv.
  - destruct s as [rs snt cf chunks cfg recv tm p]. unfold close_inv in *.
    cbn [closeFrames readyState] in *.
    destruct rs; cbn; try exact Hinv;
      destruct Hinv as [Hnone | [Hkind _]]; auto.
  - destruct s as [rs snt cf chunks cfg recv tm p].
    unfold close_inv, timer_inv in *. cbn [closeFrames readyState connectionTimeout] in *.
    destruct tm; [|exact Hinv].
    rewrite (Htimer eq_refl) in *. cbn.
    destruct Hinv as [Hnone | [_ [H | H]]]; [auto | discriminate | discriminate].
Qed.

Lemma run_close_inv (trace : list Occurrence) :
  forall s : Session, timer_inv s -> close_inv s -> close_inv (run s trace).
Proof.
  induction trace as [ | o rest IH]; intros s Htimer Hinv; [exact Hinv|].
  cbn [Relay.run fold_left]. apply IH.
  - apply deliver_timer_inv. exact Htimer.
  - apply deliver_close_inv; assumption.
Qed.

(** X11. The handlers of the relay start the closing handshake at most
    once.  Of the close frames that their own calls of
    [ws.close(code, reason)] write, a session has at most one, and it is
    1000 "Processing complete" or 1011 "API Error".  The call
    [ws.close(1000, 'Connection timeout')] of the timer callback never
    writes one: when the callback acts, the socket is still connecting and
    has no frame to carry.  The frame with which the socket itself answers
    a close that the peer started is no call of the relay and is not
    recorded in [closeFrames]. *)
Theorem relay_closes_at_most_once (sampleRate : Z) (trace : list Occurrence) :
  closeFrames (processAudioWithOpenAI rt audioBuffer sampleRate trace) = [] \/
  closeFrames (processAudioWithOpenAI rt audioBuffer sampleRate trace)
    = [(1000, "Processing complete")] \/
  closeFrames (processAudioWithOpenAI rt audioBuffer sampleRate trace)
    = [(1011, "API Error")].
Proof.
  unfold processAudioWithOpenAI.
  destruct (run_close_inv trace connect connect_timer_inv) as [H | [[H | H] _]];
    [left; reflexivity | auto | auto | auto].
Qed.

(** ** After the socket has closed *)

Lemma deliver_closed (s : Session) (o : Occurrence) :
  readyState s = CLOSED -> connectionTimeout s = false ->
  socket_error o = false -> deliver s o = s.
Proof.
  intros Hrs Htm Ho.
  destruct o as [ | parsed | err | code why | ]; try discriminate;
    cbn [Relay.deliver]; rewrite ?Hrs, ?Htm; reflexivity.
Qed.

Lemma run_closed (trace : list Occurrence) :
  forall s : Session,
    readyState s = CLOSED -> connectionTimeout s = false ->
    forallb (fun o => negb (socket_error o)) trace = true ->
    run s trace = s.
Proof.
  induction trace as [ | o rest IH]; intros s Hrs Htm Hq; [reflexivity|].
  cbn [forallb] in Hq. apply andb_prop in Hq as [Ho Hrest].
  apply negb_true_iff in Ho.
  cbn [Relay.run fold_left]. rewrite deliver_closed by assumption.
  apply IH; assumption.
Qed.

Lemma closed_after_close (s : Session) (code : Z) (why : string) :
  timer_inv s ->
  readyState (deliver s (Closed code why)) = CLOSED /\
  connectionTimeout (deliver s (Closed code why)) = false.
Proof.
  intros Hinv. cbn [Relay.deliver].
  destruct (readyState s) eqn:Hrs; cbn; auto.
  split; [exact Hrs|].
  destruct (connectionTimeout s) eqn:Htm; [|reflexivity].
  specialize (Hinv Htm). congruence.
Qed.

(** After the [close] of the socket the session is frozen: only a socket
    error can still settle a pending promise. *)
Lemma frozen_after_close (before after : list Occurrence) (code : Z) (why : string) :
  forallb (fun o => negb (socket_error o)) after = true ->
  run connect (before ++ Closed code why :: after)
  = run connect (before ++ [Closed code why]).
Proof.
  intros Hq. unfold Relay.run. rewrite !fold_left_app. cbn [fold_left].
  fold (run connect before).
  destruct (closed_after_close (run connect before) code why) as [Hrs Htm].
  - apply run_timer_inv. exact connect_timer_inv.
  - apply run_closed; assumption.
Qed.

(** ** Messages no branch acts on *)

Lemma dispatch_forgets (s : Session) (b : bool) (event : ServerEvent) :
  dispatch (set_hasReceivedData s b) event
  = set_hasReceivedData (dispatch s event) b.
Proof.
  destruct s as [rs snt cf chunks cfg recv tm p]. unfold Relay.dispatch.
  cbn [isSessionConfigured set_hasReceivedData readyState].
  destruct rs; cbn [ReadyState_eqb];
    repeat match goal with
           | |- context [if ?c then _ else _] => destruct c
           | |- context [match delta event with _ => _ end] => destruct (delta event)
           end;
    reflexivity.
Qed.

Lemma core_set (s : Session) (b : bool) : core (set_hasReceivedData s b) = core s.
Proof. destruct s; reflexivity. Qed.

Lemma core_deliver (s : Session) (o : Occurrence) :
  timer_inv s -> core (deliver s o) = core (deliver (core s) o).
Proof.
  intros Hinv.
  destruct o as [ | parsed | err | code why | ]; cbn [Relay.deliver].
  - destruct s as [rs snt cf chunks cfg recv tm p]. destruct rs; reflexivity.
  - assert (Hin : core (Relay.incoming rt audioBuffer s parsed)
                  = core (Relay.incoming rt audioBuffer (core s) parsed)).
    { unfold Relay.incoming. destruct parsed as [event | ].
      - rewrite !dispatch_forgets, !core_set.
        change (core s) with (set_hasReceivedData s false).
        rewrite dispatch_forgets, core_set. reflexivity.
      - unfold core. destruct s; reflexivity. }
    destruct s as [rs snt cf chunks cfg recv tm p].
    destruct rs; cbn [readyState core set_hasReceivedData] in *;
      try reflexivity; exact Hin.
  - destruct s; reflexivity.
  - destruct s as [rs snt cf chunks cfg recv tm p]. destruct rs; reflexivity.
  - destruct s as [rs snt cf chunks cfg recv tm p].
    destruct tm; [|reflexivity].
    assert (Hrs : rs = CONNECTING) by (apply Hinv; reflexivity).
    subst rs. reflexivity.
Qed.

Lemma core_timer_inv (s : Session) : timer_inv s -> timer_inv (core s).
Proof. destruct s; exact (fun H => H). Qed.

Lemma dispatch_unhandled (s : Session) (event : ServerEvent) :
  handled_type (type event) = false -> dispatch s event = s.
Proof.
  unfold handled_type. intros H.
  apply orb_false_elim in H as [H Hserr].
  apply orb_false_elim in H as [H Herr].
  apply orb_false_elim in H as [H Hdone].
  apply orb_false_elim in H as [Hcreated Hdelta].
  unfold Relay.dispatch. rewrite Hcreated, Hdelta, Hdone, Herr, Hserr.
  cbn [andb orb].
  destruct (type event =? "response.text.delta")%string; reflexivity.
Qed.

Lemma core_deliver_ignorable (s : Session) (o : Occurrence) :
  ignorable o = true -> core (deliver s o) = core s.
Proof.
  intros Hig.
  destruct o as [ | [event | ] | err | code why | ]; try discriminate;
    cbn [Relay.deliver ignorable] in *.
  - apply negb_true_iff in Hig.
    destruct (readyState s); try reflexivity;
      unfold Relay.incoming; rewrite dispatch_unhandled by exact Hig;
      apply core_set.
  - destruct (readyState s); try reflexivity; apply core_set.
Qed.

Lemma core_run_filter (trace : list Occurrence) :
  forall s s' : Session,
    timer_inv s -> timer_inv s' -> core s = core s' ->
    core (run s trace)
    = core (run s' (filter (fun o => negb (ignorable o)) trace)).
Proof.
  induction trace as [ | o rest IH]; intros s s' Hi Hi' Hcore; [exact Hcore|].
  cbn [Relay.run fold_left filter].
  destruct (ignorable o) eqn:Hig; cbn [negb].
  - apply IH; [apply deliver_timer_inv; exact Hi | exact Hi' |].
    rewrite core_deliver_ignorable by exact Hig. exact Hcore.
  - cbn [fold_left]. apply IH.
    + apply deliver_timer_inv; exact Hi.
    + apply deliver_timer_inv; exact Hi'.
    + rewrite (core_deliver s o Hi), (core_deliver s' o Hi'), Hcore. reflexivity.
Qed.

(** X13. Messages that do not parse, [response.text.delta] and messages of a
    type the handler does not know change nothing that matters: with them
    removed from what happens to a session, its promise, what it has
    written, its close frames, its fragments and the state of its socket
    are the same. *)
Theorem ignorable_messages_change_nothing (trace : list Occurrence) :
  promise (run connect trace)
    = promise (run connect (filter (fun o => negb (ignorable o)) trace)) /\
  sent (run connect trace)
    = sent (run connect (filter (fun o => negb (ignorable o)) trace)) /\
  closeFrames (run connect trace)
    = closeFrames (run connect (filter (fun o => negb (ignorable o)) trace)) /\
  responseAudioChunks (run connect trace)
    = responseAudioChunks (run connect (filter (fun o => negb (ignorable o)) trace)) /\
  readyState (run connect trace)
    = readyState (run connect (filter (fun o => negb (ignorable o)) trace)).
Proof.
  pose proof (core_run_filter trace connect connect
                connect_timer_inv connect_timer_inv eq_refl) as H.
  repeat split.
  - apply (f_equal promise) in H. exact H.
  - apply (f_equal sent) in H. exact H.
  - apply (f_equal closeFrames) in H. exact H.
  - apply (f_equal responseAudioChunks) in H. exact H.
  - apply (f_equal readyState) in H. exact H.
Qed.

End RelayTraces.

Section RouteTraces.
Import Relay Trace.

(** X12. When the socket closes before the exchange is settled, the request
    waits for ever unless a socket error follows: whatever else happens
    after the [close], the route gives what it gave at the [close]. *)
Theorem nothing_but_an_error_after_close
    (rt : Runtime) (req : RequestBody)
    (before after : list Occurrence) (code : Z) (why : string) :
  forallb (fun o => negb (socket_error o)) after = true ->
  process_audio rt req (before ++ Closed code why :: after)
  = process_audio rt req (before ++ [Closed code why]).
Proof.
  intros Hq. unfold process_audio, processAudioWithOpenAI.
  destruct (audio req) as [a | ]; [|reflexivity].
  destruct (negb (Relay.truthy (Some a))); [reflexivity|].
  rewrite (frozen_after_close rt _ before after code why Hq). reflexivity.
Qed.

End RouteTraces.

(* ================================================================== *)
(** * Failures of the relay at the route                                *)
(* ================================================================== *)

Section RouteFailures.
Import Relay Trace.

Variable rt : Runtime.

(** ** A pending exchange on a connecting socket has its timer armed *)



(** ** What each failure does to a pending exchange *)





End RouteFailures.

Section FailureScenarios.
Import Relay Trace Samples.



End FailureScenarios.

(* ================================================================== *)
(** * More on the earlier server                                        *)
(* ================================================================== *)

Section LegacyTraces.
Import Relay Trace.

Variable rt : Runtime.
Variable audioBuffer : Buffer.
Variable parseError : string.

Local Abbreviation ldeliver := (Legacy.deliver rt audioBuffer parseError).
Local Abbreviation lrun := (Legacy.run rt audioBuffer parseError).
Local Abbreviation ldispatch := (Legacy.dispatch rt audioBuffer).

Lemma legacy_run_app (s : Legacy.Session) (xs ys : list Occurrence) :
  lrun s (xs ++ ys) = lrun (lrun s xs) ys.
Proof. unfold Legacy.run. apply fold_left_app. Qed.

Lemma join_undefined_snoc (chunks : list (option string)) (c : option string) :
  Legacy.join_undefined (chunks ++ [c])
  = String.append (Legacy.join_undefined chunks) (Legacy.join_undefined [c]).
Proof.
  unfold Legacy.join_undefined. rewrite map_app. apply join_app.
Qed.

Lemma join_undefined_app (xs ys : list (option string)) :
  Legacy.join_undefined (xs ++ ys)
  = String.append (Legacy.join_undefined xs) (Legacy.join_undefined ys).
Proof.
  unfold Legacy.join_undefined. rewrite map_app. apply join_app.
Qed.

(** ** Settlement is final *)

Lemma legacy_dispatch_settled (s : Legacy.Session) (event : ServerEvent) :
  settled (Legacy.promise s) = true ->
  Legacy.promise (ldispatch s event) = Legacy.promise s.
Proof.
  intros Hs. destruct s as [rs snt cf chunks created tm p].
  cbn [Legacy.promise] in Hs. unfold Legacy.dispatch.
  destruct ((type event =? "session.created")%string && _);
    destruct (type event =? "response.audio.delta")%string;
    destruct (type event =? "response.done")%string;
    destruct rs; cbn; try reflexivity;
    apply resolve_settled; exact Hs.
Qed.

Lemma legacy_deliver_settled (s : Legacy.Session) (o : Occurrence) :
  settled (Legacy.promise s) = true ->
  Legacy.promise (ldeliver s o) = Legacy.promise s.
Proof.
  intros Hs.
  destruct o as [ | [event | ] | err | code why | ]; cbn [Legacy.deliver].
  - destruct (Legacy.readyState s); reflexivity.
  - unfold Legacy.incoming.
    destruct (Legacy.readyState s); try reflexivity;
      apply legacy_dispatch_settled; exact Hs.
  - unfold Legacy.incoming.
    destruct (Legacy.readyState s); try reflexivity;
      cbn; apply reject_settled; exact Hs.
  - cbn. apply reject_settled. exact Hs.
  - destruct (Legacy.readyState s); reflexivity.
  - destruct s as [rs snt cf chunks created tm p]. cbn [Legacy.promise] in Hs.
    destruct tm; [|reflexivity]. destruct rs; cbn; try reflexivity;
      apply reject_settled; exact Hs.
Qed.

Lemma legacy_run_settled (trace : list Occurrence) :
  forall s : Legacy.Session,
    settled (Legacy.promise s) = true ->
    Legacy.promise (lrun s trace) = Legacy.promise s.
Proof.
  induction trace as [ | o rest IH]; intros s Hs; [reflexivity|].
  cbn [Legacy.run fold_left]. fold (lrun (ldeliver s o) rest).
  rewrite IH; rewrite legacy_deliver_settled by exact Hs; auto.
Qed.

(** X14. In the earlier server, too, a settled exchange stays as it is, and so
    does the response made of it. *)
Theorem legacy_settlement_is_final (s : Legacy.Session) (later : list Occurrence) :
  settled (Legacy.promise s) = true ->
  Legacy.promise (lrun s later) = Legacy.promise s /\
  Legacy.respond (Legacy.promise (lrun s later)) = Legacy.respond (Legacy.promise s).
Proof.
  intros Hs. rewrite legacy_run_settled by exact Hs. auto.
Qed.

(** ** Streaming *)

Lemma legacy_dispatch_streaming (s : Legacy.Session) (event : ServerEvent) :
  Legacy.readyState s = OPEN -> Legacy.promise s = Pending ->
  (type event =? "response.done")%string = false ->
  Legacy.readyState (ldispatch s event) = OPEN /\
  Legacy.promise (ldispatch s event) = Pending /\
  Legacy.timeout (ldispatch s event) = Legacy.timeout s /\
  Legacy.join_undefined (Legacy.responseAudioChunks (ldispatch s event))
  = String.append (Legacy.join_undefined (Legacy.responseAudioChunks s))
                  (Legacy.join_undefined (audio_deltas_raw [event])).
Proof.
  intros Hopen Hpend Hdone.
  destruct s as [rs snt cf chunks created tm p].
  cbn [Legacy.readyState Legacy.promise] in Hopen, Hpend. subst rs p.
  unfold Legacy.dispatch, audio_deltas_raw. cbn [flat_map]. rewrite Hdone, app_nil_r.
  destruct ((type event =? "session.created")%string && _);
    destruct (type event =? "response.audio.delta")%string;
    cbn [Legacy.readyState Legacy.promise Legacy.timeout Legacy.responseAudioChunks
         Legacy.push_chunk Legacy.configure Legacy.ws_send
         Legacy.set_isSessionCreated];
    rewrite ?join_undefined_snoc; repeat split;
    symmetry; apply append_nil_r.
Qed.

Lemma audio_deltas_raw_cons (event : ServerEvent) (rest : list ServerEvent) :
  audio_deltas_raw (event :: rest) = audio_deltas_raw [event] ++ audio_deltas_raw rest.
Proof. unfold audio_deltas_raw. cbn [flat_map]. rewrite app_nil_r. reflexivity. Qed.

Lemma legacy_run_streaming (events : list ServerEvent) :
  forall s : Legacy.Session,
    Legacy.readyState s = OPEN -> Legacy.promise s = Pending ->
    forallb (fun e => negb (type e =? "response.done")%string) events = true ->
    Legacy.readyState (lrun s (map (fun e => Message (Some e)) events)) = OPEN /\
    Legacy.promise (lrun s (map (fun e => Message (Some e)) events)) = Pending /\
    Legacy.timeout (lrun s (map (fun e => Message (Some e)) events)) = Legacy.timeout s /\
    Legacy.join_undefined
      (Legacy.responseAudioChunks (lrun s (map (fun e => Message (Some e)) events)))
    = String.append (Legacy.join_undefined (Legacy.responseAudioChunks s))
                    (Legacy.join_undefined (audio_deltas_raw events)).
Proof.
  induction events as [ | event rest IH]; intros s Hopen Hpend Hnd.
  - cbn. rewrite append_nil_r. auto.
  - cbn [forallb] in Hnd. apply andb_prop in Hnd as [He Hrest].
    apply negb_true_iff in He.
    cbn [map Legacy.run fold_left Legacy.deliver]. rewrite Hopen.
    unfold Legacy.incoming.
    destruct (legacy_dispatch_streaming s event Hopen Hpend He) as (Ho & Hp & Ht & Hj).
    fold (lrun (ldispatch s event) (map (fun e => Message (Some e)) rest)).
    destruct (IH _ Ho Hp Hrest) as (Ho' & Hp' & Ht' & Hj').
    rewrite Ho', Hp', Ht', Hj', Hj, Ht.
    rewrite (audio_deltas_raw_cons event rest), join_undefined_app, append_assoc.
    repeat split.
Qed.

End LegacyTraces.

Section LegacyRoute.
Import Relay Trace.

Variable rt : Runtime.
Variable parseError : string.

Lemma legacy_process_audio_relays (req : RequestBody) (a : string)
    (upstream : list Occurrence) :
  audio req = Some a -> a <> "" ->
  Legacy.process_audio rt parseError req upstream
  = (Legacy.respond
       (Legacy.promise
          (Legacy.run rt (Buffer_from_base64 rt a) parseError Legacy.connect upstream)),
     [Legacy.run rt (Buffer_from_base64 rt a) parseError Legacy.connect upstream]).
Proof.
  intros Ha Hne. unfold Legacy.process_audio, Legacy.processAudioWithOpenAI.
  rewrite Ha. apply truthy_nonempty in Hne. rewrite Hne. reflexivity.
Qed.

(** X15. The earlier server joins the fragments in order of arrival as well; a
    [response.audio.delta] without [delta] counts as the empty string.
    This holds when [response.done] arrives before the 30 s have passed. *)
Theorem legacy_relay_concatenates_fragments
    (req : RequestBody) (a : string)
    (events : list ServerEvent) (done : ServerEvent) (later : list Occurrence) :
  audio req = Some a -> a <> "" ->
  forallb (fun e => negb (type e =? "response.done")%string) events = true ->
  type done = "response.done" ->
  fst (Legacy.process_audio rt parseError req
         (Opened :: map (fun e => Message (Some e)) (events ++ [done]) ++ later))
  = Some {| status := 200;
            body := audio_body (Legacy.join_undefined (audio_deltas_raw events)) |}.
Proof.
  intros Ha Hne Hstream Hdone.
  rewrite (legacy_process_audio_relays req a _ Ha Hne). cbn [fst].
  set (audioBuffer := Buffer_from_base64 rt a).
  change (Opened :: map (fun e => Message (Some e)) (events ++ [done]) ++ later)
    with ([Opened] ++ map (fun e => Message (Some e)) (events ++ [done]) ++ later).
  rewrite map_app, <- app_assoc, !legacy_run_app.
  destruct (legacy_run_streaming rt audioBuffer parseError events
              (Legacy.run rt audioBuffer parseError Legacy.connect [Opened])
              eq_refl eq_refl Hstream) as (Ho & Hp & _ & Hj).
  set (s1 := Legacy.run rt audioBuffer parseError
               (Legacy.run rt audioBuffer parseError Legacy.connect [Opened])
               (map (fun e => Message (Some e)) events)) in *.
  assert (Hres : Legacy.promise
                   (Legacy.run rt audioBuffer parseError s1
                      (map (fun e => Message (Some e)) [done]))
                 = Resolved (Legacy.join_undefined (audio_deltas_raw events))).
  { cbn [map Legacy.run fold_left Legacy.deliver]. rewrite Ho.
    unfold Legacy.incoming, Legacy.dispatch. rewrite Hdone.
    destruct s1 as [rs snt cf chunks created tm p].
    cbn [Legacy.readyState Legacy.promise Legacy.responseAudioChunks] in Ho, Hp, Hj.
    subst rs p. cbn -[Legacy.join_undefined]. rewrite Hj. reflexivity. }
  rewrite legacy_run_settled by (rewrite Hres; reflexivity).
  rewrite Hres. reflexivity.
Qed.

(** X16. The timer of the earlier server is a deadline for the whole exchange:
    it stays armed while fragments arrive, and when the 30 s pass before
    [response.done] the request is answered 500 with the timeout text. *)
Theorem legacy_deadline_cuts_a_streaming_response
    (req : RequestBody) (a : string)
    (events : list ServerEvent) (later : list Occurrence) :
  audio req = Some a -> a <> "" ->
  forallb (fun e => negb (type e =? "response.done")%string) events = true ->
  fst (Legacy.process_audio rt parseError req
         (Opened :: map (fun e => Message (Some e)) events ++ TimerElapsed :: later))
  = Some {| status := 500;
            body := error_body "Erro ao processar áudio"
                      (Some "Timeout na conexão com OpenAI") |}.
Proof.
  intros Ha Hne Hstream.
  rewrite (legacy_process_audio_relays req a _ Ha Hne). cbn [fst].
  set (audioBuffer := Buffer_from_base64 rt a).
  change (Opened :: map (fun e => Message (Some e)) events ++ TimerElapsed :: later)
    with ([Opened] ++ map (fun e => Message (Some e)) events ++ [TimerElapsed] ++ later).
  rewrite !legacy_run_app.
  destruct (legacy_run_streaming rt audioBuffer parseError events
              (Legacy.run rt audioBuffer parseError Legacy.connect [Opened])
              eq_refl eq_refl Hstream) as (Ho & Hp & Ht & _).
  set (s1 := Legacy.run rt audioBuffer parseError
               (Legacy.run rt audioBuffer parseError Legacy.connect [Opened])
               (map (fun e => Message (Some e)) events)) in *.
  assert (Hrej : Legacy.promise (Legacy.run rt audioBuffer parseError s1 [TimerElapsed])
                 = Rejected "Timeout na conexão com OpenAI").
  { destruct s1 as [rs snt cf chunks created tm p].
    cbn [Legacy.readyState Legacy.promise Legacy.timeout] in Ho, Hp, Ht.
    subst rs p tm. reflexivity. }
  rewrite legacy_run_settled by (rewrite Hrej; reflexivity).
  rewrite Hrej. reflexivity.
Qed.

(** X17. In the earlier server a message that does not parse rejects a pending
    exchange: the request is answered 500 with the message of the parse
    error, whatever follows. *)
Theorem legacy_malformed_message_rejects
    (req : RequestBody) (a : string)
    (events : list ServerEvent) (later : list Occurrence) :
  audio req = Some a -> a <> "" ->
  forallb (fun e => negb (type e =? "response.done")%string) events = true ->
  fst (Legacy.process_audio rt parseError req
         (Opened :: map (fun e => Message (Some e)) events ++ Message None :: later))
  = Some {| status := 500;
            body := error_body "Erro ao processar áudio" (Some parseError) |}.
Proof.
  intros Ha Hne Hstream.
  rewrite (legacy_process_audio_relays req a _ Ha Hne). cbn [fst].
  set (audioBuffer := Buffer_from_base64 rt a).
  change (Opened :: map (fun e => Message (Some e)) events ++ Message None :: later)
    with ([Opened] ++ map (fun e => Message (Some e)) events ++ [Message None] ++ later).
  rewrite !legacy_run_app.
  destruct (legacy_run_streaming rt audioBuffer parseError events
              (Legacy.run rt audioBuffer parseError Legacy.connect [Opened])
              eq_refl eq_refl Hstream) as (Ho & Hp & _ & _).
  set (s1 := Legacy.run rt audioBuffer parseError
               (Legacy.run rt audioBuffer parseError Legacy.connect [Opened])
               (map (fun e => Message (Some e)) events)) in *.
  assert (Hrej : Legacy.promise (Legacy.run rt audioBuffer parseError s1 [Message None])
                 = Rejected parseError).
  { cbn [Legacy.run fold_left Legacy.deliver]. rewrite Ho.
    unfold Legacy.incoming. cbn [Legacy.promise Legacy.set_promise].
    rewrite Hp. reflexivity. }
  rewrite legacy_run_settled by (rewrite Hrej; reflexivity).
  rewrite Hrej. reflexivity.
Qed.

End LegacyRoute.

(* ================================================================== *)
(** * The Android capture loop                                          *)
(* ================================================================== *)

Section AndroidLoop.
Import Android.

Lemma byte1_mod (x : Z) : byte1 x = x mod 256.
Proof. unfold byte1. change 255 with (Z.ones 8). apply Z.land_ones. lia. Qed.

Lemma byte2_mod (x : Z) : byte2 x = (x / 256) mod 256.
Proof.
  unfold byte2. change 255 with (Z.ones 8).
  rewrite Z.land_ones by lia. rewrite Z.shiftr_div_pow2 by lia. reflexivity.
Qed.

Lemma write_samples_app (captured xs ys : list Z) :
  write_samples captured (xs ++ ys) = write_samples (write_samples captured xs) ys.
Proof. unfold write_samples. apply fold_left_app. Qed.

Lemma write_samples_length (samples : list Z) :
  forall captured : list Z,
    length (write_samples captured samples)
    = (length captured + 2 * length samples)%nat.
Proof.
  induction samples as [ | x rest IH]; intros captured; cbn [write_samples fold_left].
  - cbn. lia.
  - fold (write_samples ((captured ++ [byte1 x]) ++ [byte2 x]) rest).
    rewrite IH, !length_app. cbn [length]. lia.
Qed.

(** X18. Each sample is stored as two bytes, low byte first, in two's
    complement: the bytes are octets, together they are the sample modulo
    2^16, a 16-bit sample is read back from them unchanged, and a read
    of n samples adds 2n bytes. *)
Theorem android_samples_are_little_endian (x : Z) (captured samples : list Z) :
  0 <= byte1 x < 256 /\ 0 <= byte2 x < 256 /\
  byte1 x + 256 * byte2 x = x mod 65536 /\
  (-32768 <= x <= 32767 -> JsNum.wrap16 (byte1 x + 256 * byte2 x) = x) /\
  write_samples captured (x :: samples)
    = write_samples (captured ++ [byte1 x; byte2 x]) samples /\
  length (write_samples captured samples)
    = (length captured + 2 * length samples)%nat.
Proof.
  assert (Hjoin : byte1 x + 256 * byte2 x = x mod 65536).
  { rewrite byte1_mod, byte2_mod.
    change 65536 with (256 * 256). rewrite Z.rem_mul_r by lia. reflexivity. }
  split; [rewrite byte1_mod; apply Z.mod_pos_bound; lia|].
  split; [rewrite byte2_mod; apply Z.mod_pos_bound; lia|].
  split; [exact Hjoin|].
  split; [|split].
  - intros Hx. rewrite Hjoin. unfold JsNum.wrap16.
    rewrite Z.mod_mod by lia.
    destruct (Z.neg_nonneg_cases x) as [Hneg | Hpos].
    + assert (Hr : x mod 65536 = x + 65536)
        by (symmetry; apply (Z.mod_unique_pos x 65536 (-1)); lia).
      rewrite Hr. destruct (Z.geb_spec (x + 65536) 32768); lia.
    + rewrite Z.mod_small by lia. destruct (Z.geb_spec x 32768); lia.
  - cbn [write_samples fold_left]. rewrite <- app_assoc. reflexivity.
  - apply write_samples_length.
Qed.

Lemma loud_nonempty (samples : list Z) :
  average samples > SILENCE_THRESHOLD -> 0 < Z.of_nat (length samples).
Proof.
  destruct samples as [ | x rest]; [vm_compute; discriminate | cbn; lia].
Qed.

Lemma read_loud (st : State) (samples : list Z) :
  average samples > SILENCE_THRESHOLD ->
  read st samples
  = {| isProcessing := true; silenceCounter := 0;
       capturedAudio := write_samples (capturedAudio st) samples;
       processed := processed st |}.
Proof.
  intros Hloud. unfold read.
  replace (0 <? Z.of_nat (length samples)) with true
    by (symmetry; apply Z.ltb_lt, loud_nonempty; exact Hloud).
  rewrite gtb_true by exact Hloud. reflexivity.
Qed.

Lemma read_all_app (st : State) (xs ys : list (list Z)) :
  read_all st (xs ++ ys) = read_all (read_all st xs) ys.
Proof. unfold read_all. apply fold_left_app. Qed.

(** Reads of speech are appended to what is captured. *)
Lemma read_all_speech (speech : list (list Z)) :
  forall st : State,
    speech <> [] ->
    Forall (fun r => average r > SILENCE_THRESHOLD) speech ->
    read_all st speech
    = {| isProcessing := true; silenceCounter := 0;
         capturedAudio := write_samples (capturedAudio st) (concat speech);
         processed := processed st |}.
Proof.
  induction speech as [ | r rest IH]; intros st Hne Hloud; [contradiction|].
  inversion Hloud as [ | ? ? Hr Hrest]; subst.
  cbn [read_all fold_left concat]. fold (read_all (read st r) rest).
  rewrite (read_loud st r Hr).
  destruct rest as [ | r' rest'].
  - cbn. rewrite app_nil_r. reflexivity.
  - rewrite IH by (discriminate || exact Hrest).
    cbn [capturedAudio processed]. rewrite write_samples_app. reflexivity.
Qed.

(** Silent reads that do not exhaust the allowance are captured and
    counted. *)
Lemma read_all_pause (pause : list (list Z)) :
  forall st : State,
    isProcessing st = true ->
    Forall (fun r => r <> [] /\ average r <= SILENCE_THRESHOLD) pause ->
    silenceCounter st + Z.of_nat (length pause) <= SILENCE_DURATION ->
    read_all st pause
    = {| isProcessing := true;
         silenceCounter := silenceCounter st + Z.of_nat (length pause);
         capturedAudio := write_samples (capturedAudio st) (concat pause);
         processed := processed st |}.
Proof.
  induction pause as [ | r rest IH]; intros st Hproc Hsil Hcount.
  - cbn. rewrite Z.add_0_r. destruct st; cbn in *; subst; reflexivity.
  - inversion Hsil as [ | ? ? [Hne Hr] Hrest]; subst.
    cbn [length] in Hcount. rewrite Nat2Z.inj_succ in Hcount.
    cbn [read_all fold_left concat]. fold (read_all (read st r) rest).
    assert (Hstep : read st r
                    = {| isProcessing := true;
                         silenceCounter := silenceCounter st + 1;
                         capturedAudio := write_samples (capturedAudio st) r;
                         processed := processed st |}).
    { unfold read.
      replace (0 <? Z.of_nat (length r)) with true
        by (symmetry; apply Z.ltb_lt; destruct r; [contradiction | cbn; lia]).
      rewrite (gtb_false _ _ Hr), Hproc.
      rewrite gtb_false by lia. reflexivity. }
    rewrite Hstep, IH; cbn [isProcessing silenceCounter capturedAudio processed];
      [ | reflexivity | exact Hrest | lia].
    rewrite write_samples_app. cbn [length]. rewrite Nat2Z.inj_succ.
    f_equal. lia.
Qed.

(** While nothing is being captured, reads that are not speech change
    nothing. *)
Lemma read_all_idle (reads : list (list Z)) :
  forall st : State,
    isProcessing st = false ->
    Forall (fun r => average r <= SILENCE_THRESHOLD) reads ->
    read_all st reads = st.
Proof.
  induction reads as [ | r rest IH]; intros st Hidle Hsil; [reflexivity|].
  inversion Hsil as [ | ? ? Hr Hrest]; subst.
  cbn [read_all fold_left]. fold (read_all (read st r) rest).
  assert (Hstep : read st r = st).
  { unfold read. destruct (0 <? Z.of_nat (length r)); [|reflexivity].
    rewrite (gtb_false _ _ Hr), Hidle. reflexivity. }
  rewrite Hstep. apply IH; assumption.
Qed.

Lemma read_all_release
    (st : State) (speech pause tail : list (list Z)) (r : list Z) :
  capturedAudio st = [] ->
  speech <> [] ->
  Forall (fun q => average q > SILENCE_THRESHOLD) speech ->
  Forall (fun q => q <> [] /\ average q <= SILENCE_THRESHOLD) pause ->
  length pause = 20%nat ->
  r <> [] -> average r <= SILENCE_THRESHOLD ->
  Forall (fun q => average q <= SILENCE_THRESHOLD) tail ->
  read_all st (speech ++ pause ++ [r] ++ tail)
  = {| isProcessing := false; silenceCounter := 0; capturedAudio := [];
       processed := processed st
                    ++ [write_samples [] (concat (speech ++ pause ++ [r]))] |}.
Proof.
  intros Hempty Hne Hloud Hsil Hlen Hrne Hr Htail.
  rewrite !read_all_app.
  rewrite (read_all_speech speech st Hne Hloud), Hempty.
  rewrite (read_all_pause pause
             {| isProcessing := true; silenceCounter := 0;
                capturedAudio := write_samples [] (concat speech);
                processed := processed st |} eq_refl Hsil)
    by (cbn [silenceCounter]; rewrite Hlen; unfold SILENCE_DURATION; lia).
  cbn [isProcessing silenceCounter capturedAudio processed].
  rewrite Hlen.
  assert (Hstep : read_all {| isProcessing := true;
                              silenceCounter := 0 + Z.of_nat 20;
                              capturedAudio := write_samples (write_samples [] (concat speech))
                                                 (concat pause);
                              processed := processed st |} [r]
                  = {| isProcessing := false; silenceCounter := 0; capturedAudio := [];
                       processed := processed st
                         ++ [write_samples [] (concat (speech ++ pause ++ [r]))] |}).
  { cbn [read_all fold_left]. unfold read.
    cbn [isProcessing silenceCounter capturedAudio processed].
    replace (0 <? Z.of_nat (length r)) with true
      by (symmetry; apply Z.ltb_lt; destruct r; [contradiction | cbn; lia]).
    rewrite (gtb_false _ _ Hr).
    replace (0 + Z.of_nat 20 + 1 >? SILENCE_DURATION) with true by reflexivity.
    rewrite !concat_app, !write_samples_app. cbn [concat].
    rewrite app_nil_r. reflexivity. }
  rewrite Hstep. apply read_all_idle; [reflexivity | exact Htail].
Qed.

(** X19. The Android loop keeps the trailing silence.  After speech, the 21st
    silent read in a row hands [processAudio] everything captured: the
    reads of speech and those 21 silent reads, two bytes a sample.  Further
    silent reads are not captured. *)
Theorem android_utterance_includes_trailing_silence
    (st : State) (speech silence : list (list Z)) :
  capturedAudio st = [] ->
  speech <> [] ->
  Forall (fun r => average r > SILENCE_THRESHOLD) speech ->
  Forall (fun r => r <> [] /\ average r <= SILENCE_THRESHOLD) silence ->
  (21 <= length silence)%nat ->
  processed (read_all st (speech ++ silence))
    = processed st
      ++ [write_samples [] (concat (speech ++ firstn 21 silence))] /\
  length (write_samples [] (concat (speech ++ firstn 21 silence)))
    = (2 * length (concat (speech ++ firstn 21 silence)))%nat /\
  isProcessing (read_all st (speech ++ silence)) = false /\
  capturedAudio (read_all st (speech ++ silence)) = [].
Proof.
  intros Hempty Hne Hloud Hsil Hlen.
  assert (Hsplit : exists pause r tail,
             silence = pause ++ [r] ++ tail /\ length pause = 20%nat).
  { exists (firstn 20 silence).
    destruct (skipn 20 silence) as [ | r tail] eqn:Hsk.
    - apply (f_equal (@length (list Z))) in Hsk.
      rewrite length_skipn in Hsk. cbn in Hsk. lia.
    - exists r, tail. split.
      + rewrite <- (firstn_skipn 20 silence) at 1. rewrite Hsk. reflexivity.
      + rewrite length_firstn. lia. }
  destruct Hsplit as (pause & r & tail & -> & Hp).
  apply Forall_app in Hsil as [Hpause Hrest].
  apply Forall_app in Hrest as [Hr Htail].
  inversion Hr as [ | ? ? [Hrne Hrsil] _]; subst.
  assert (Hfirst : firstn 21 (pause ++ [r] ++ tail) = pause ++ [r]).
  { rewrite firstn_app, Hp. rewrite firstn_all2 by lia. reflexivity. }
  rewrite Hfirst.
  rewrite (read_all_release st speech pause tail r Hempty Hne Hloud Hpause Hp Hrne Hrsil).
  - cbn [processed isProcessing capturedAudio].
    rewrite write_samples_length. repeat split.
  - apply Forall_impl with (2 := Htail). intros q [_ Hq]. exact Hq.
Qed.

(** X20. A pause of at most 20 silent reads does not end the capture, and the
    pause is captured too: after speech, such a pause and more speech, the
    bytes captured are those of all the reads, in order, and nothing has
    been handed to [processAudio]. *)
Theorem android_short_pause_is_kept
    (st : State) (first pause second : list (list Z)) :
  capturedAudio st = [] ->
  first <> [] -> second <> [] ->
  Forall (fun r => average r > SILENCE_THRESHOLD) first ->
  Forall (fun r => r <> [] /\ average r <= SILENCE_THRESHOLD) pause ->
  (length pause <= 20)%nat ->
  Forall (fun r => average r > SILENCE_THRESHOLD) second ->
  read_all st (first ++ pause ++ second)
  = {| isProcessing := true; silenceCounter := 0;
       capturedAudio := write_samples [] (concat (first ++ pause ++ second));
       processed := processed st |}.
Proof.
  intros Hempty Hne1 Hne2 Hloud1 Hsil Hlen Hloud2.
  rewrite !read_all_app.
  rewrite (read_all_speech first st Hne1 Hloud1), Hempty.
  rewrite (read_all_pause pause
             {| isProcessing := true; silenceCounter := 0;
                capturedAudio := write_samples [] (concat first);
                processed := processed st |} eq_refl Hsil)
    by (cbn [silenceCounter]; unfold SILENCE_DURATION; lia).
  rewrite (read_all_speech second _ Hne2 Hloud2).
  cbn [capturedAudio processed].
  rewrite !concat_app, !write_samples_app. reflexivity.
Qed.

End AndroidLoop.

(* ================================================================== *)
(** * More scenarios                                                    *)
(* ================================================================== *)

Section MoreScenarios.
Import JsNum Client Relay Trace Samples MoreSamples.

Lemma at_most_one_utterance_of_speech_only_witness :
  (posted (feed listening mixed_frames) = posted listening /\
   recordingBuffer (feed listening mixed_frames)
   = map fst (filter (fun f => above_threshold (fst f)) mixed_frames))
  \/
  (exists k : nat,
     (k < length mixed_frames)%nat /\
     posted (feed listening mixed_frames)
     = posted listening
       ++ [concat (map fst (filter (fun f => above_threshold (fst f))
                                   (firstn k mixed_frames)))] /\
     (0 < length (concat (map fst (filter (fun f => above_threshold (fst f))
                                          (firstn k mixed_frames)))))%nat /\
     recordingBuffer (feed listening mixed_frames) = [] /\
     isSpeaking (feed listening mixed_frames) = true).
Proof.
  apply (at_most_one_utterance_of_speech_only listening mixed_frames); reflexivity.
Defined.

Example mixed_frames_utterance :
  posted (feed listening mixed_frames) = [loud_frame ++ loud_frame].
Proof. vm_compute. reflexivity. Qed.

Lemma short_pause_does_not_split_witness :
  posted (feed listening
            ([(loud_frame, 0)] ++ [(silent_frame, 1000)]
             ++ [(loud_frame, 1200)] ++ [(silent_frame, 3000)]))
  = posted listening ++ [concat (map fst ([(loud_frame, 0)] ++ [(loud_frame, 1200)]))].
Proof.
  apply (short_pause_does_not_split listening
           [(loud_frame, 0)] [(silent_frame, 1000)]
           [(loud_frame, 1200)] [(silent_frame, 3000)]);
    try reflexivity; try discriminate; try (repeat constructor).
  - vm_compute. discriminate.
Defined.

Lemma float32To16BitPCM_saturates_witness :
  ToInt16 (scale (clamp (S754_infinity false))) = 32767 /\
  ToInt16 (scale (clamp (S754_finite true 6755399441055744 (-52)))) = -32768.
Proof.
  split.
  - apply (proj1 (float32To16BitPCM_saturates (S754_infinity false))). reflexivity.
  - apply (proj2 (float32To16BitPCM_saturates
                    (S754_finite true 6755399441055744 (-52)))). reflexivity.
Defined.

Lemma float32To16BitPCM_keeps_sign_witness :
  -32768 <= ToInt16 (scale (clamp (S754_finite true 4503599627370496 (-53)))) <= 0 /\
  0 <= ToInt16 (scale (clamp lit_0_01)) <= 32767.
Proof.
  split.
  - apply (proj1 (float32To16BitPCM_keeps_sign
                    (S754_finite true 4503599627370496 (-53)) eq_refl)). reflexivity.
  - apply (proj2 (float32To16BitPCM_keeps_sign lit_0_01 eq_refl)). reflexivity.
Defined.

Lemma busy_until_round_trip_ends_witness :
  isSpeaking (Page.seg (Page.handle_all busy_page
                [Page.AudioProcess loud_frame 0; Page.StopClicked; Page.StartClicked;
                 Page.MicrophoneGranted true; Page.AudioProcess loud_frame 5000;
                 Page.AudioProcess silent_frame 9000; Page.WakeLockReleased])) = true /\
  posted (Page.seg (Page.handle_all busy_page
                [Page.AudioProcess loud_frame 0; Page.StopClicked; Page.StartClicked;
                 Page.MicrophoneGranted true; Page.AudioProcess loud_frame 5000;
                 Page.AudioProcess silent_frame 9000; Page.WakeLockReleased]))
    = posted (Page.seg busy_page) /\
  Page.played (Page.handle_all busy_page
                [Page.AudioProcess loud_frame 0; Page.StopClicked; Page.StartClicked;
                 Page.MicrophoneGranted true; Page.AudioProcess loud_frame 5000;
                 Page.AudioProcess silent_frame 9000; Page.WakeLockReleased])
    = Page.played busy_page.
Proof.
  apply (busy_until_round_trip_ends
           [Page.AudioProcess loud_frame 0; Page.StopClicked; Page.StartClicked;
            Page.MicrophoneGranted true; Page.AudioProcess loud_frame 5000;
            Page.AudioProcess silent_frame 9000; Page.WakeLockReleased] busy_page);
    reflexivity.
Defined.

Lemma stop_discards_the_partial_utterance_witness :
  posted (Page.seg (Page.handle_all listening_page
            (map (fun f => Page.AudioProcess (fst f) (snd f))
                 [(loud_frame, 0); (loud_frame, 256)]
             ++ [Page.StopClicked; Page.StartClicked; Page.MicrophoneGranted true]
             ++ map (fun f => Page.AudioProcess (fst f) (snd f))
                    [(silent_frame, 9000)])))
  = posted (Page.seg listening_page) /\
  recordingBuffer (Page.seg (Page.handle_all listening_page
            (map (fun f => Page.AudioProcess (fst f) (snd f))
                 [(loud_frame, 0); (loud_frame, 256)]
             ++ [Page.StopClicked; Page.StartClicked; Page.MicrophoneGranted true]
             ++ map (fun f => Page.AudioProcess (fst f) (snd f))
                    [(silent_frame, 9000)])))
  = [].
Proof.
  apply (stop_discards_the_partial_utterance listening_page
           [(loud_frame, 0); (loud_frame, 256)] [(silent_frame, 9000)] true);
    try reflexivity; repeat constructor.
Defined.

Lemma page_reaction_to_backend_witness :
  (exists a : string,
     a <> "" /\
     {| status := 500;
        body := error_body "Erro interno ao processar áudio"
                  (Some "OpenAI API Error: rate_limited") |}
     = {| status := 200; body := audio_body a |} /\
     Page.thrown (Page.reply_of
        {| status := 500;
           body := error_body "Erro interno ao processar áudio"
                     (Some "OpenAI API Error: rate_limited") |}) = None /\
     forall p : Page.State,
       Page.fetchSettled p (Page.reply_of
          {| status := 500;
             body := error_body "Erro interno ao processar áudio"
                       (Some "OpenAI API Error: rate_limited") |})
       = Page.playAudioResponse p a)
  \/ ({| status := 500;
         body := error_body "Erro interno ao processar áudio"
                   (Some "OpenAI API Error: rate_limited") |}
      = {| status := 200; body := audio_body "" |} /\
      Page.thrown (Page.reply_of
         {| status := 500;
            body := error_body "Erro interno ao processar áudio"
                      (Some "OpenAI API Error: rate_limited") |})
      = Some "Resposta do servidor não contém áudio.")
  \/ (exists details : string,
        {| status := 500;
           body := error_body "Erro interno ao processar áudio"
                     (Some "OpenAI API Error: rate_limited") |}
        = {| status := 500;
             body := error_body "Erro interno ao processar áudio" (Some details) |} /\
        Page.thrown (Page.reply_of
           {| status := 500;
              body := error_body "Erro interno ao processar áudio"
                        (Some "OpenAI API Error: rate_limited") |})
        = Some "Server error: 500 - Erro interno ao processar áudio")
  \/ ({| status := 500;
         body := error_body "Erro interno ao processar áudio"
                   (Some "OpenAI API Error: rate_limited") |}
      = bad_request /\
      Page.thrown (Page.reply_of
         {| status := 500;
            body := error_body "Erro interno ao processar áudio"
                      (Some "OpenAI API Error: rate_limited") |})
      = Some "Server error: 400 - Dados de áudio não fornecidos").
Proof.
  apply (page_reaction_to_backend rt (request "UklGRg==")
           [Opened; Message (Some (error_event "rate_limited"))]
           {| status := 500;
              body := error_body "Erro interno ao processar áudio"
                        (Some "OpenAI API Error: rate_limited") |}
           [run rt (codes "UklGRg==") connect
              [Opened; Message (Some (error_event "rate_limited"))]]).
  reflexivity.
Defined.

Lemma timer_acts_only_while_connecting_witness :
  deliver rt [] (run rt [] connect [Opened; Message (Some session_created)])
    TimerElapsed
  = run rt [] connect [Opened; Message (Some session_created)].
Proof.
  apply (timer_acts_only_while_connecting rt []
           [Opened; Message (Some session_created)]).
  discriminate.
Defined.

Lemma nothing_but_an_error_after_close_witness :
  process_audio rt (request "UklGRg==")
    ([Opened] ++ Closed 1006 ""
       :: [TimerElapsed; Message (Some response_done); Opened; Closed 1000 ""])
  = process_audio rt (request "UklGRg==") ([Opened] ++ [Closed 1006 ""]).
Proof.
  apply (nothing_but_an_error_after_close rt (request "UklGRg==") [Opened]
           [TimerElapsed; Message (Some response_done); Opened; Closed 1000 ""]
           1006 "").
  reflexivity.
Defined.

Lemma legacy_settlement_is_final_witness :
  Legacy.promise
    (Legacy.run rt [] "Unexpected token"
       (Legacy.run rt [] "Unexpected token" Legacy.connect
          [Opened; Message (Some response_done)])
       [TimerElapsed; Errored "reset"; Message None; Closed 1006 ""])
  = Legacy.promise
      (Legacy.run rt [] "Unexpected token" Legacy.connect
         [Opened; Message (Some response_done)]) /\
  Legacy.respond
    (Legacy.promise
       (Legacy.run rt [] "Unexpected token"
          (Legacy.run rt [] "Unexpected token" Legacy.connect
             [Opened; Message (Some response_done)])
          [TimerElapsed; Errored "reset"; Message None; Closed 1006 ""]))
  = Legacy.respond
      (Legacy.promise
         (Legacy.run rt [] "Unexpected token" Legacy.connect
            [Opened; Message (Some response_done)])).
Proof.
  apply (legacy_settlement_is_final rt [] "Unexpected token"
           (Legacy.run rt [] "Unexpected token" Legacy.connect
              [Opened; Message (Some response_done)])
           [TimerElapsed; Errored "reset"; Message None; Closed 1006 ""]).
  reflexivity.
Defined.

Lemma legacy_relay_concatenates_fragments_witness :
  fst (Legacy.process_audio rt "Unexpected token" (request "UklGRg==")
         (Opened :: map (fun e => Message (Some e))
                        ([session_created; audio_delta "AAA"; delta_missing;
                          audio_delta "BBB"] ++ [response_done])
                    ++ [Closed 1000 ""; TimerElapsed]))
  = Some {| status := 200; body := audio_body "AAABBB" |}.
Proof.
  apply (legacy_relay_concatenates_fragments rt "Unexpected token"
           (request "UklGRg==") "UklGRg=="
           [session_created; audio_delta "AAA"; delta_missing; audio_delta "BBB"]
           response_done [Closed 1000 ""; TimerElapsed]).
  - reflexivity.
  - discriminate.
  - reflexivity.
  - reflexivity.
Defined.

Lemma legacy_deadline_cuts_a_streaming_response_witness :
  fst (Legacy.process_audio rt "Unexpected token" (request "UklGRg==")
         (Opened :: map (fun e => Message (Some e))
                        [session_created; audio_delta "AAA"]
                    ++ TimerElapsed
                       :: [Message (Some (audio_delta "BBB")); Message (Some response_done)]))
  = Some {| status := 500;
            body := error_body "Erro ao processar áudio"
                      (Some "Timeout na conexão com OpenAI") |}.
Proof.
  apply (legacy_deadline_cuts_a_streaming_response rt "Unexpected token"
           (request "UklGRg==") "UklGRg=="
           [session_created; audio_delta "AAA"]
           [Message (Some (audio_delta "BBB")); Message (Some response_done)]).
  - reflexivity.
  - discriminate.
  - reflexivity.
Defined.

Lemma legacy_malformed_message_rejects_witness :
  fst (Legacy.process_audio rt "Unexpected token" (request "UklGRg==")
         (Opened :: map (fun e => Message (Some e)) [session_created]
                    ++ Message None :: [Message (Some response_done)]))
  = Some {| status := 500;
            body := error_body "Erro ao processar áudio" (Some "Unexpected token") |}.
Proof.
  apply (legacy_malformed_message_rejects rt "Unexpected token"
           (request "UklGRg==") "UklGRg=="
           [session_created] [Message (Some response_done)]).
  - reflexivity.
  - discriminate.
  - reflexivity.
Defined.

Lemma android_samples_are_little_endian_witness :
  Android.byte1 (-2) = 254 /\ Android.byte2 (-2) = 255 /\
  JsNum.wrap16 (Android.byte1 (-2) + 256 * Android.byte2 (-2)) = -2.
Proof.
  split; [reflexivity|]. split; [reflexivity|].
  destruct (android_samples_are_little_endian (-2) [] []) as (_ & _ & _ & H & _).
  apply H. lia.
Defined.

Lemma android_utterance_includes_trailing_silence_witness :
  Android.processed
    (Android.read_all Android.idle ([speech_read] ++ repeat silent_read 25))
  = Android.processed Android.idle
    ++ [Android.write_samples []
          (concat ([speech_read] ++ firstn 21 (repeat silent_read 25)))] /\
  length (Android.write_samples []
            (concat ([speech_read] ++ firstn 21 (repeat silent_read 25))))
  = (2 * length (concat ([speech_read] ++ firstn 21 (repeat silent_read 25))))%nat /\
  Android.isProcessing
    (Android.read_all Android.idle ([speech_read] ++ repeat silent_read 25)) = false /\
  Android.capturedAudio
    (Android.read_all Android.idle ([speech_read] ++ repeat silent_read 25)) = [].
Proof.
  apply (android_utterance_includes_trailing_silence Android.idle
           [speech_read] (repeat silent_read 25)).
  - reflexivity.
  - discriminate.
  - repeat constructor.
  - apply Forall_forall. intros q Hq. apply repeat_spec in Hq. subst q.
    split; [discriminate | vm_compute; discriminate].
  - cbn. lia.
Defined.

Lemma android_short_pause_is_kept_witness :
  Android.read_all Android.idle
    ([speech_read] ++ repeat silent_read 20 ++ [speech_read])
  = {| Android.isProcessing := true; Android.silenceCounter := 0;
       Android.capturedAudio :=
         Android.write_samples []
           (concat ([speech_read] ++ repeat silent_read 20 ++ [speech_read]));
       Android.processed := Android.processed Android.idle |}.
Proof.
  apply (android_short_pause_is_kept Android.idle
           [speech_read] (repeat silent_read 20) [speech_read]).
  - reflexivity.
  - discriminate.
  - discriminate.
  - repeat constructor.
  - apply Forall_forall. intros q Hq. apply repeat_spec in Hq. subst q.
    split; [discriminate | vm_compute; discriminate].
  - cbn. lia.
  - repeat constructor.
Defined.

End MoreScenarios.
